(** * dupless: duplicate-file finder (src/main.cpp)

    A shallow embedding of the scan / hash / group / delete pipeline of
    [main.cpp], and the properties of it that the specification states.

    Conventions
    - [uint64_t] values are [Z] with the wrap-around modulo 2^64 written out;
    - [std::string] and [fs::path] are [string];
    - file contents are [list byte];
    - [std::map<std::string, std::vector<fs::path>>] is an association list
      kept strictly sorted by key, which is the order a [std::map] iterates in;
    - what the program reads from its environment (directory walk, file
      contents, size queries, standard input, the outcome of removals) is an
      explicit argument, and what it writes is an explicit trace. *)

From Stdlib Require Import ZArith List String Ascii Bool Lia Arith.
From Stdlib.Strings Require Import Byte.
From Stdlib Require Import Sorted Permutation OrderedTypeEx.
Import ListNotations.

Local Open Scope string_scope.
Local Open Scope list_scope.
Local Open Scope Z_scope.

(** String concatenation, as [operator+] on [std::string] and the chained
    [operator<<] of a stream do it. *)
Infix "+++" := String.append (right associativity, at level 60).

Definition path := string.

(** ** SHA-256 *)

(** Modelled from the spec: the class [SHA256] of [sha256.h], which [main.cpp]
    includes and which is not among the sources. The spec asks of it "a
    deterministic fixed-length digest (hexadecimal string) over the entire
    content", fed in chunks, and [main.cpp] documents the result as "the
    hexadecimal SHA-256 hash": the module is SHA-256 as an incremental
    hasher, with the three operations [main.cpp] calls. *)
Module SHA256.

(** 32-bit words. *)
Definition w32 (x : Z) : Z := x mod 2 ^ 32.
Definition add32 (x y : Z) : Z := w32 (x + y).
Definition rotr (n x : Z) : Z :=
  w32 (Z.lor (Z.shiftr x n) (Z.shiftl x (32 - n))).
Definition Ch (x y z : Z) : Z :=
  Z.lxor (Z.land x y) (Z.land (Z.lxor x (2 ^ 32 - 1)) z).
Definition Maj (x y z : Z) : Z :=
  Z.lxor (Z.lxor (Z.land x y) (Z.land x z)) (Z.land y z).
Definition Sigma0 (x : Z) : Z := Z.lxor (Z.lxor (rotr 2 x) (rotr 13 x)) (rotr 22 x).
Definition Sigma1 (x : Z) : Z := Z.lxor (Z.lxor (rotr 6 x) (rotr 11 x)) (rotr 25 x).
Definition sigma0 (x : Z) : Z := Z.lxor (Z.lxor (rotr 7 x) (rotr 18 x)) (Z.shiftr x 3).
Definition sigma1 (x : Z) : Z := Z.lxor (Z.lxor (rotr 17 x) (rotr 19 x)) (Z.shiftr x 10).

(** The prime numbers below [2 + n], in ascending order. *)
Definition is_prime (p : nat) : bool :=
  forallb (fun d => negb (p mod d =? 0)%nat) (seq 2 (p - 2)).

Definition primes (n : nat) : list Z :=
  map Z.of_nat (filter is_prime (seq 2 n)).

(** The integer cube root of a number below 2 ^ (3 * bits), bit by bit. *)
Fixpoint cube_root (bits : nat) (n r : Z) : Z :=
  match bits with
  | O => r
  | S bits' =>
      let r' := r + 2 ^ Z.of_nat bits' in
      cube_root bits' n (if r' * r' * r' <=? n then r' else r)
  end.

(** The first 32 bits of the fractional part of a cube root and of a
    square root. *)
Definition frac_cube_root (p : Z) : Z := w32 (cube_root 36 (p * 2 ^ 96) 0).
Definition frac_square_root (p : Z) : Z := w32 (Z.sqrt (p * 2 ^ 64)).

(** The round constants: from the cube roots of the first 64 primes. *)
Definition K : list Z :=
  Eval vm_compute in map frac_cube_root (primes 310).

(** The initial chaining value: from the square roots of the first 8 primes. *)
Definition H0 : list Z :=
  Eval vm_compute in map frac_square_root (primes 18).

Definition byteZ (b : byte) : Z := Z.of_N (Byte.to_N b).

(** Big-endian words of a block. *)
Fixpoint words (bs : list byte) : list Z :=
  match bs with
  | b0 :: b1 :: b2 :: b3 :: rest =>
      (byteZ b0 * 2 ^ 24 + byteZ b1 * 2 ^ 16 + byteZ b2 * 2 ^ 8 + byteZ b3)
        :: words rest
  | _ => []
  end.

(** The message schedule, most recent word first: [extend n w] prepends
    [n] further words to the reversed schedule [w]. *)
Fixpoint extend (n : nat) (w : list Z) : list Z :=
  match n with
  | O => w
  | S n' =>
      let x := add32 (add32 (sigma1 (nth 1 w 0)) (nth 6 w 0))
                     (add32 (sigma0 (nth 14 w 0)) (nth 15 w 0)) in
      extend n' (x :: w)
  end.

Definition schedule (block : list byte) : list Z :=
  rev (extend 48 (rev (words block))).

Record regs := Regs { ra : Z; rb : Z; rc : Z; rd : Z; re : Z; rf : Z; rg : Z; rh : Z }.

Definition round (r : regs) (kw : Z * Z) : regs :=
  let t1 := add32 (add32 (add32 (rh r) (Sigma1 (re r))) (Ch (re r) (rf r) (rg r)))
                  (add32 (fst kw) (snd kw)) in
  let t2 := add32 (Sigma0 (ra r)) (Maj (ra r) (rb r) (rc r)) in
  Regs (add32 t1 t2) (ra r) (rb r) (rc r) (add32 (rd r) t1) (re r) (rf r) (rg r).

Definition regs_of (h : list Z) : regs :=
  Regs (nth 0 h 0) (nth 1 h 0) (nth 2 h 0) (nth 3 h 0)
       (nth 4 h 0) (nth 5 h 0) (nth 6 h 0) (nth 7 h 0).

Definition list_of (r : regs) : list Z :=
  [ra r; rb r; rc r; rd r; re r; rf r; rg r; rh r].

(** One application of the compression function to a 64-byte block. *)
Definition processBlock (h : list Z) (block : list byte) : list Z :=
  let r := fold_left round (combine K (schedule block)) (regs_of h) in
  map (fun p => add32 (fst p) (snd p)) (combine h (list_of r)).

(** Modelled from the spec: an object of the class [SHA256], absent from the
    sources. It holds the chaining value, the bytes not yet forming a whole
    64-byte block, and the number of bytes absorbed so far. *)
Record t := Mk { chain : list Z; pending : list byte; numBytes : Z }.

(** Modelled from the spec: the constructor, [SHA256 sha256;], absent from
    the sources. *)
Definition init : t := Mk H0 [] 0.

Definition add1 (s : t) (b : byte) : t :=
  let buf := pending s ++ [b] in
  if Nat.eqb (List.length buf) 64
  then Mk (processBlock (chain s) buf) [] (numBytes s + 1)
  else Mk (chain s) buf (numBytes s + 1).

(** Modelled from the spec: [sha256.add(data, numBytes)], absent from the
    sources; the bytes are absorbed one after the other. *)
Definition add (s : t) (data : list byte) : t := fold_left add1 data s.

Definition be64 (n : Z) : list byte :=
  map (fun i => match Byte.of_N (Z.to_N (Z.shiftr n (8 * i) mod 256)) with
                | Some b => b
                | None => x00
                end)
      [7; 6; 5; 4; 3; 2; 1; 0].

(** Padding of a message of [n] bytes: a one bit, zeros up to 56 modulo 64,
    and the bit length on 64 bits. *)
Definition padding (n : Z) : list byte :=
  x80 :: repeat x00 (Z.to_nat ((55 - n) mod 64)) ++ be64 ((8 * n) mod 2 ^ 64).

Definition hexdigit (n : Z) : ascii :=
  ascii_of_nat (Z.to_nat (if n <? 10 then 48 + n else 87 + n)).

Definition hex32 (x : Z) : string :=
  string_of_list_ascii
    (map (fun i => hexdigit (Z.shiftr x (4 * i) mod 16)) [7; 6; 5; 4; 3; 2; 1; 0]).

Definition hex (h : list Z) : string := String.concat "" (map hex32 h).

(** Modelled from the spec: [sha256.getHash()], absent from the sources: the
    chaining value after the padding, in lower-case hexadecimal digits. *)
Definition getHash (s : t) : string :=
  hex (chain (add s (padding (numBytes s)))).

(** The digest of a whole message, fed in one piece. *)
Definition digest (msg : list byte) : string := getHash (add init msg).

End SHA256.

(** ** Numbers and their renderings *)

(** [uint64_t] (here an alias of [std::uintmax_t]): arithmetic wraps. *)
Definition u64 (x : Z) : Z := x mod 2 ^ 64.
Definition add64 (x y : Z) : Z := u64 (x + y).

Definition digit (d : Z) : ascii := ascii_of_nat (48 + Z.to_nat d).

(** Decimal digits of [n], most significant first, in front of [acc]. *)
Fixpoint digits (fuel : nat) (n : Z) (acc : string) : string :=
  match fuel with
  | O => acc
  | S fuel' =>
      let acc' := String (digit (n mod 10)) acc in
      if n <? 10 then acc' else digits fuel' (n / 10) acc'
  end.

(** [std::to_string] of an unsigned integer. A number has no more decimal
    digits than binary ones, which bounds the loop. *)
Definition to_string (n : Z) : string :=
  digits (S (Z.to_nat (Z.log2 n))) n "".

(** A [double] that is a non-negative integer multiple of a power of two:
    [mant / 2 ^ scale]. Every [double] [formatSize] computes is of this
    form. *)
Record double := Dbl { mant : Z; scale : Z }.

(** [static_cast<double>(n)] for [0 <= n < 2^64]: exact below 2^53, and
    above it the nearest multiple of [2 ^ e] that has 53 significant bits,
    ties going to the even one. *)
Definition to_double (n : Z) : double :=
  if n <? 2 ^ 53 then Dbl n 0
  else
    let e := Z.log2 n - 52 in
    let q := n / 2 ^ e in
    let r := n mod 2 ^ e in
    let up := if 2 * r <? 2 ^ e then false
              else if 2 ^ e <? 2 * r then true
              else Z.odd q in
    Dbl ((if up then q + 1 else q) * 2 ^ e) 0.

(** Division of a [double] by [unit], a power of two: exact. *)
Definition fdiv (x : double) (unit : Z) : double :=
  Dbl (mant x) (scale x + Z.log2 unit).

(** The value of [x] in millionths, rounded to nearest, ties to even: the
    digits that [printf("%f")] prints. *)
Definition millionths (x : double) : Z :=
  let n := mant x * 10 ^ 6 in
  let d := 2 ^ scale x in
  let q := n / d in
  let r := n mod d in
  if 2 * r <? d then q
  else if d <? 2 * r then q + 1
  else if Z.odd q then q + 1 else q.

Definition frac6 (q : Z) : string :=
  string_of_list_ascii
    (map (fun i => digit ((q / 10 ^ i) mod 10)) [5; 4; 3; 2; 1; 0]).

(** [std::to_string(double)]: what [sprintf("%f")] writes, six decimals. *)
Definition to_string_double (x : double) : string :=
  let q := millionths x in
  to_string (q / 10 ^ 6) +++ "." +++ frac6 q.

(** ** formatSize *)

Definition KB : Z := 1024.
Definition MB : Z := u64 (1024 * KB).
Definition GB : Z := u64 (1024 * MB).

Definition formatSize (bytes : Z) : string :=
  if GB <=? bytes then
    substring 0 4 (to_string_double (fdiv (to_double bytes) GB)) +++ " GB"
  else if MB <=? bytes then
    substring 0 4 (to_string_double (fdiv (to_double bytes) MB)) +++ " MB"
  else if KB <=? bytes then
    substring 0 4 (to_string_double (fdiv (to_double bytes) KB)) +++ " KB"
  else
    to_string bytes +++ " Bytes".

(** ** calculateFileHash *)

(** How the bytes of a file end when they are read: at the end of the file,
    or with an input error of the device. *)
Inductive ending := Eof | ReadError.

(** A file as [std::ifstream file(path, std::ios::binary)] finds it. *)
Record file := File { opens : bool; content : list byte; ends : ending }.

(** The stream: what is left to read, the count of the last unformatted
    read, and the state bits. *)
Record ifstream := Stream {
  unread : list byte;
  closing : ending;
  gcount : nat;
  eofbit : bool;
  failbit : bool;
  badbit : bool
}.

Definition ifstream_open (f : file) : ifstream :=
  Stream (content f) (ends f) 0 false false false.

(** [file.fail()], the negation of the stream's [operator bool]. *)
Definition fail (f : ifstream) : bool := failbit f || badbit f.

(** [file.read(buffer, n)]: the bytes stored at the start of [buffer] and the
    stream afterwards. A stream that is not good only sets [failbit]; a read
    that meets the end of the file before [n] bytes stores what there was
    and sets [eofbit] and [failbit]; a device error sets [badbit]. *)
Definition read (n : nat) (f : ifstream) : list byte * ifstream :=
  if eofbit f || failbit f || badbit f then
    ([], Stream (unread f) (closing f) 0 (eofbit f) true (badbit f))
  else if (n <=? List.length (unread f))%nat then
    (firstn n (unread f),
     Stream (skipn n (unread f)) (closing f) n false false false)
  else
    match closing f with
    | Eof =>
        (unread f,
         Stream [] Eof (List.length (unread f)) true true false)
    | ReadError =>
        ([], Stream [] ReadError 0 false false true)
    end.

(** [sizeof(buffer)] for [char buffer[131072]]. *)
Definition BUFFER_SIZE : nat := Z.to_nat 131072.

(** The hasher as [calculateFileHash] uses it: an object that is created,
    fed with [add] and asked for the digest with [getHash]. *)
Record hasher := Hasher {
  hasher_state : Type;
  hasher_init : hasher_state;
  hasher_add : hasher_state -> list byte -> hasher_state;
  hasher_getHash : hasher_state -> string
}.

(** The class [SHA256]. *)
Definition sha256_hasher : hasher :=
  Hasher SHA256.t SHA256.init SHA256.add SHA256.getHash.

(** The [while (file.read(buffer, sizeof(buffer)))] loop. It gives the
    hasher, the stream and the buffer as the loop leaves them; [None] only
    when [fuel] iterations did not reach the exit. *)
Fixpoint read_loop (H : hasher) (n : nat) (fuel : nat)
    (sha256 : hasher_state H) (f : ifstream)
  : option (hasher_state H * ifstream * list byte) :=
  match fuel with
  | O => None
  | S fuel' =>
      let (buffer, f') := read n f in
      if fail f' then Some (sha256, f', buffer)
      else read_loop H n fuel' (hasher_add H sha256 (firstn (gcount f') buffer)) f'
  end.

(** [calculateFileHash] with the hasher and the buffer size as parameters.
    Each turn of the loop but the last takes [n] bytes, so one more turn
    than the file has bytes is enough. *)
Definition calculateFileHash_with (H : hasher) (n : nat) (f : file) : string :=
  if negb (opens f) then ""
  else
    match read_loop H n (S (List.length (content f))) (hasher_init H)
                    (ifstream_open f) with
    | None => ""
    | Some (sha256, file, buffer) =>
        let sha256 :=
          if (0 <? gcount file)%nat
          then hasher_add H sha256 (firstn (gcount file) buffer)
          else sha256 in
        if badbit file then "" else hasher_getHash H sha256
    end.

Definition calculateFileHash (f : file) : string :=
  calculateFileHash_with sha256_hasher BUFFER_SIZE f.

(** A hasher is incremental when feeding it no byte changes nothing and
    feeding it two pieces in turn is feeding it their concatenation. *)
Definition incremental (H : hasher) : Prop :=
  (forall s, hasher_add H s [] = s) /\
  (forall s a b, hasher_add H (hasher_add H s a) b = hasher_add H s (a ++ b)).

(** The digest of a whole content, fed to the hasher in one piece. *)
Definition contiguous (H : hasher) (data : list byte) : string :=
  hasher_getHash H (hasher_add H (hasher_init H) data).

(** ** The program's surroundings *)

(** What the program writes, in order: [std::cout] and [std::cerr]. *)
Inductive event := Out (s : string) | Err (s : string).

Definition nl : string := String "010"%char "".
Definition cr : string := String "013"%char "".

(** An entry of the directory iteration. *)
Record directory_entry := Entry {
  entry_path : path;
  is_regular_file : bool;
  entry_file : file
}.

(** A run of [fs::recursive_directory_iterator(rootDir)]: the entries it
    yields, ended either by the end of the tree or by a
    [fs::filesystem_error] (thrown by the constructor, by an increment or by
    [entry.is_regular_file()]), whose [what()] is carried. *)
Inductive walk :=
| WEnd
| WThrow (what : string)
| WNext (entry : directory_entry) (rest : walk).

(** [fs::remove(p)]: [true] when the file was deleted, [false] when it did
    not exist, and a [fs::filesystem_error] otherwise. *)
Inductive removal := Removed | Absent | RemoveError (what : string).

(** The files on disk while the deletions run: a path, and whether the file
    may be removed. *)
Definition disk := list (path * bool).

(** The [what()] of the [fs::filesystem_error] of a removal that is refused:
    the wording is the library's, for a permission that is missing. *)
Definition remove_error_what (p : path) : string :=
  "filesystem error: cannot remove: Permission denied [" +++ p +++ "]".

Fixpoint fs_remove (p : path) (d : disk) : removal * disk :=
  match d with
  | [] => (Absent, [])
  | (q, removable) :: d' =>
      if String.eqb p q then
        if removable then (Removed, d')
        else (RemoveError (remove_error_what p), d)
      else
        let (r, d'') := fs_remove p d' in (r, (q, removable) :: d'')
  end.

(** ** The map from digest to paths *)

(** [std::map<std::string, std::vector<fs::path>>], as the sequence of its
    pairs in iteration order, which is the ascending order of the keys under
    [operator<] of [std::string]. *)
Definition hashmap := list (string * list path).

(** [hashToPaths[hash].push_back(filePath)]: [operator[]] finds the key or
    inserts it with an empty vector at its place in the order. *)
Fixpoint push_back_at (hash : string) (filePath : path) (m : hashmap) : hashmap :=
  match m with
  | [] => [(hash, [filePath])]
  | (k, paths) :: m' =>
      match String.compare hash k with
      | Lt => (hash, [filePath]) :: m
      | Eq => (k, paths ++ [filePath]) :: m'
      | Gt => (k, paths) :: push_back_at hash filePath m'
      end
  end.

(** ** findAndRemoveDuplicates *)

(** *** Phase 1: scan and hash *)

(** The body of the [try] block of phase 1: the map and the output when the
    iteration ends, and [inl what] when a [fs::filesystem_error] is thrown. *)
Fixpoint scan (w : walk) (hashToPaths : hashmap) (out : list event)
  : (string + hashmap) * list event :=
  match w with
  | WEnd => (inr hashToPaths, out)
  | WThrow what => (inl what, out)
  | WNext entry rest =>
      if is_regular_file entry then
        let filePath := entry_path entry in
        let out := out ++ [Out ("Calculating hash for: " +++ filePath +++ cr)] in
        let hash := calculateFileHash (entry_file entry) in
        if negb (String.eqb hash "")
        then scan rest (push_back_at hash filePath hashToPaths) out
        else scan rest hashToPaths out
      else scan rest hashToPaths out
  end.

(** *** Phase 2: identify, list and measure the duplicates *)

Record phase2 := Phase2 {
  foundDuplicates : bool;
  filesToDelete : list path;
  totalDuplicateSize : Z;
  printed : list event
}.

(** The loop [for (size_t i = 1; i < paths.size(); ++i)], over the paths
    from index 1 on. [file_size p] is [None] when [fs::file_size(p)] throws. *)
Fixpoint list_duplicates (file_size : path -> option Z) (dups : list path)
    (st : phase2) : phase2 :=
  match dups with
  | [] => st
  | dupPath :: dups' =>
      let filesToDelete := filesToDelete st ++ [dupPath] in
      match file_size dupPath with
      | Some size =>
          list_duplicates file_size dups'
            (Phase2 (foundDuplicates st) filesToDelete
               (add64 (totalDuplicateSize st) size)
               (printed st ++
                [Out ("   -> Duplicate: " +++ dupPath +++ " (" +++
                      formatSize size +++ ")" +++ nl)]))
      | None =>
          list_duplicates file_size dups'
            (Phase2 (foundDuplicates st) filesToDelete
               (totalDuplicateSize st)
               (printed st ++
                [Err ("   -> Warning: Could not get size for " +++ dupPath +++ nl)]))
      end
  end.

(** The body of [for (const auto& pair : hashToPaths)]. *)
Definition report_group (file_size : path -> option Z) (st : phase2)
    (pair : string * list path) : phase2 :=
  let paths := snd pair in
  if (1 <? List.length paths)%nat then
    let keeper := nth 0 paths "" in
    list_duplicates file_size (skipn 1 paths)
      (Phase2 true (filesToDelete st) (totalDuplicateSize st)
         (printed st ++
          [Out (nl +++ "--- Duplicate Group (Keeper: " +++ keeper +++ ") ---" +++ nl)]))
  else st.

Definition report_groups (file_size : path -> option Z) (hashToPaths : hashmap)
    (st : phase2) : phase2 :=
  fold_left (report_group file_size) hashToPaths st.

(** *** Phase 3: prompt and batch deletion *)

(** [std::isspace] in the "C" locale. *)
Definition isspace (c : ascii) : bool :=
  let n := nat_of_ascii c in
  (n =? 32)%nat || ((9 <=? n)%nat && (n <=? 13)%nat).

Fixpoint skip_whitespace (s : string) : string :=
  match s with
  | String c s' => if isspace c then skip_whitespace s' else s
  | EmptyString => EmptyString
  end.

Fixpoint until_whitespace (s : string) : string :=
  match s with
  | String c s' => if isspace c then EmptyString else String c (until_whitespace s')
  | EmptyString => EmptyString
  end.

(** [std::cin >> response] on a fresh [std::cin] holding [stdin]: leading
    white space is skipped and the characters up to the next white space (or
    the end of the input) are stored. When the input ends before any
    character is stored the extraction fails and [response] is empty. *)
Definition cin_extract (stdin : string) : string :=
  until_whitespace (skip_whitespace stdin).

(** The deletion loop [for (const auto& dupPath : filesToDelete)]:
    [deleteCount], the output and the disk afterwards. *)
Fixpoint delete_all (files : list path) (deleteCount : Z) (out : list event)
    (d : disk) : Z * list event * disk :=
  match files with
  | [] => (deleteCount, out, d)
  | dupPath :: files' =>
      match fs_remove dupPath d with
      | (RemoveError what, d') =>
          delete_all files' deleteCount
            (out ++ [Err ("   [FAIL] Error deleting file " +++ dupPath +++ ": " +++
                          what +++ nl)])
            d'
      | (_, d') =>
          delete_all files' (deleteCount + 1)
            (out ++ [Out ("   [OK] Deleted: " +++ dupPath +++ nl)])
            d'
      end
  end.

Definition confirmed (response : string) : bool :=
  (String.length response =? 1)%nat &&
  match String.get 0 response with
  | Some c => Ascii.eqb c "Y" || Ascii.eqb c "y"
  | None => false
  end.

Definition bar : string :=
  "========================================================".

(** The surroundings of one call. *)
Record world := World {
  tree : walk;
  file_size : path -> option Z;
  stdin : string;
  files : disk
}.

(** Phase 3 as a whole, entered with the outcome of phase 2 when duplicates
    were found: the summary, the prompt, and the deletions or their skipping. *)
Definition prompt_and_delete (st : phase2) (stdin : string) (d : disk)
  : list event * disk :=
  let n := to_string (Z.of_nat (List.length (filesToDelete st))) in
  let out := printed st ++
    [Out (nl +++ bar +++ nl);
     Out ("   Summary: " +++ n +++ " duplicate file(s) identified." +++ nl);
     Out ("   Total Size to Reclaim: " +++ formatSize (totalDuplicateSize st) +++ nl);
     Out ("   Do you want to **delete ALL** " +++ n +++ " files listed above (Y/N)? ");
     Out (nl +++ bar +++ nl)] in
  let response := cin_extract stdin in
  if confirmed response then
    let out := out ++ [Out (nl +++ "Starting batch deletion..." +++ nl)] in
    let '(deleteCount, out, d') := delete_all (filesToDelete st) 0 out d in
    (out ++ [Out (nl +++ "**Batch Operation Complete:** " +++ to_string deleteCount +++
                  " files successfully deleted." +++ nl)],
     d')
  else
    (out ++ [Out (nl +++ "Deletion skipped for all " +++ n +++
                  " identified files." +++ nl)],
     d).

(** [findAndRemoveDuplicates(rootDir)]: what is written and the disk when it
    returns. *)
Definition findAndRemoveDuplicates (rootDir : path) (w : world)
  : list event * disk :=
  let out :=
    [Out ("Starting scan of directory: " +++ rootDir +++ nl);
     Out ("This may take a while for large directories..." +++ nl)] in
  match scan (tree w) [] out with
  | (inl what, out) =>
      (out ++ [Err (nl +++ "Filesystem Error during scan: " +++ what +++ nl)],
       files w)
  | (inr hashToPaths, out) =>
      let out := out ++ [Out nl; Out ("Scan Complete. Checking for duplicates..." +++ nl)] in
      let st := report_groups (file_size w) hashToPaths (Phase2 false [] 0 out) in
      if negb (foundDuplicates st) then
        (printed st ++ [Out (nl +++ "No duplicate files found in the directory." +++ nl)],
         files w)
      else prompt_and_delete st (stdin w) (files w)
  end.

(** ** main *)

(** What a status query, [fs::exists(p)] or [fs::is_directory(p)], gives: its
    answer, or the [fs::filesystem_error] that it throws when the status of
    the path cannot be determined for a reason other than its absence (a
    name that is too long, a directory on the way that may not be searched),
    whose [what()] is carried. *)
Inductive query := Answer (b : bool) | QueryError (what : string).

(** What [main] asks of the file system about its argument: the two queries
    are two calls, each with its own outcome. *)
Record root_status := RootStatus { root_exists : query; root_is_directory : query }.

(** How the process ends: [main] returns its exit code, or an exception
    leaves [main], which has no handler, and [std::terminate] aborts the
    process. *)
Inductive termination := Exit (code : Z) | Abort (what : string).

(** [main(argc, argv)], with [argc] the length of [argv]: how the process
    ends, what the program has written on its two streams, and the disk.
    What the handler of [std::terminate] reports of an abort is the
    runtime's and is not among the events. *)
Definition main (argv : list string) (status : path -> root_status) (w : world)
  : termination * list event * disk :=
  if negb (List.length argv =? 2)%nat then
    (Exit 1, [Err ("Usage: " +++ nth 0 argv "" +++ " <directory_path>" +++ nl)],
     files w)
  else
    let rootDir := nth 1 argv "" in
    match root_exists (status rootDir) with
    | QueryError what => (Abort what, [], files w)
    | Answer false =>
        (Exit 1, [Err ("Error: Directory does not exist: " +++ rootDir +++ nl)],
         files w)
    | Answer true =>
        match root_is_directory (status rootDir) with
        | QueryError what => (Abort what, [], files w)
        | Answer false =>
            (Exit 1, [Err ("Error: Path is not a directory: " +++ rootDir +++ nl)],
             files w)
        | Answer true =>
            let (out, d) := findAndRemoveDuplicates rootDir w in
            (Exit 0, out, d)
        end
    end.

(** * Notions used to state the properties *)

(** The entries a walk yields, and whether it ends with an exception. *)
Fixpoint entries (w : walk) : list directory_entry :=
  match w with
  | WNext entry rest => entry :: entries rest
  | _ => []
  end.

Fixpoint thrown (w : walk) : option string :=
  match w with
  | WEnd => None
  | WThrow what => Some what
  | WNext _ rest => thrown rest
  end.

(** The walk that yields [es] and ends normally. *)
Definition complete_walk (es : list directory_entry) : walk :=
  fold_right WNext WEnd es.

(** The digest and path of the regular files whose hashing succeeds, in
    discovery order. *)
Definition discovered (es : list directory_entry) : list (string * path) :=
  flat_map
    (fun e =>
       let hash := calculateFileHash (entry_file e) in
       if is_regular_file e && negb (String.eqb hash "")
       then [(hash, entry_path e)] else [])
    es.

(** The paths discovered with digest [k], in discovery order. *)
Definition group (k : string) (hp : list (string * path)) : list path :=
  map snd (filter (fun x => String.eqb (fst x) k) hp).

Definition keys (m : hashmap) : list string := map fst m.

(** Keys in strictly ascending lexicographic order. *)
Definition ascending (m : hashmap) : Prop :=
  StronglySorted String_as_OT.lt (keys m).

Fixpoint lookup {V : Type} (k : string) (m : list (string * V)) : option V :=
  match m with
  | [] => None
  | (k', v) :: m' => if String.eqb k k' then Some v else lookup k m'
  end.

Definition is_duplicate_group (g : string * list path) : bool :=
  (1 <? List.length (snd g))%nat.

(** The members of a group that are not its keeper. *)
Definition duplicates_of (g : string * list path) : list path :=
  if is_duplicate_group g then skipn 1 (snd g) else [].

Definition duplicate_line (file_size : path -> option Z) (p : path) : event :=
  match file_size p with
  | Some size =>
      Out ("   -> Duplicate: " +++ p +++ " (" +++ formatSize size +++ ")" +++ nl)
  | None => Err ("   -> Warning: Could not get size for " +++ p +++ nl)
  end.

(** What phase 2 writes for one pair of the map. *)
Definition group_report (file_size : path -> option Z) (g : string * list path)
  : list event :=
  if is_duplicate_group g then
    Out (nl +++ "--- Duplicate Group (Keeper: " +++ nth 0 (snd g) "" +++ ") ---" +++ nl)
      :: map (duplicate_line file_size) (skipn 1 (snd g))
  else [].

(** The sizes of the paths whose size query succeeds. *)
Definition measured (file_size : path -> option Z) (l : list path) : list Z :=
  flat_map (fun p => match file_size p with Some size => [size] | None => [] end) l.

Definition sum (l : list Z) : Z := fold_right Z.add 0 l.

(** What a path adds to the total: its size, or nothing when the size query
    fails. *)
Definition counted_size (file_size : path -> option Z) (p : path) : Z :=
  match file_size p with Some size => size | None => 0 end.

Definition size_warning (p : path) : event :=
  Err ("   -> Warning: Could not get size for " +++ p +++ nl).

(** The digests of the groups that are reported, in the order of the map. *)
Definition reported (m : hashmap) : list string :=
  keys (filter is_duplicate_group m).

(** The keys of a map with the number of paths of each. *)
Definition shape (m : hashmap) : list (string * nat) :=
  map (fun g => (fst g, List.length (snd g))) m.

(** The paths mapped to [k], none when [k] is not a key. *)
Definition paths_of (k : string) (m : hashmap) : list path :=
  match lookup k m with Some ps => ps | None => [] end.

(** The insertions of phase 1, one per discovered file. *)
Definition build (hp : list (string * path)) (m : hashmap) : hashmap :=
  fold_left (fun m x => push_back_at (fst x) (snd x) m) hp m.

(** The map phase 1 builds from the entries [es]. *)
Definition hash_map (es : list directory_entry) : hashmap :=
  build (discovered es) [].

(** No key is mapped to an empty vector. *)
Definition inhabited (m : hashmap) : Prop :=
  Forall (fun g => snd g <> []) m.

(** The progress lines of phase 1. *)
Definition progress (es : list directory_entry) : list event :=
  map (fun e => Out ("Calculating hash for: " +++ entry_path e +++ cr))
      (filter is_regular_file es).

(** What phase 3 writes before it reads the response. *)
Definition summary (st : phase2) : list event :=
  let n := to_string (Z.of_nat (List.length (filesToDelete st))) in
  printed st ++
    [Out (nl +++ bar +++ nl);
     Out ("   Summary: " +++ n +++ " duplicate file(s) identified." +++ nl);
     Out ("   Total Size to Reclaim: " +++ formatSize (totalDuplicateSize st) +++ nl);
     Out ("   Do you want to **delete ALL** " +++ n +++ " files listed above (Y/N)? ");
     Out (nl +++ bar +++ nl)].

Definition skipped_message (st : phase2) : event :=
  Out (nl +++ "Deletion skipped for all " +++
       to_string (Z.of_nat (List.length (filesToDelete st))) +++
       " identified files." +++ nl).

Definition complete_message (deleteCount : Z) : event :=
  Out (nl +++ "**Batch Operation Complete:** " +++ to_string deleteCount +++
       " files successfully deleted." +++ nl).

(** The outcome of each removal of the deletion loop, in order. *)
Fixpoint removals (files : list path) (d : disk) : list removal :=
  match files with
  | [] => []
  | p :: files' => fst (fs_remove p d) :: removals files' (snd (fs_remove p d))
  end.

Definition is_error (r : removal) : bool :=
  match r with RemoveError _ => true | _ => false end.

Definition is_removed (r : removal) : bool :=
  match r with Removed => true | _ => false end.

(** What the deletion loop writes for one file. *)
Definition deletion_line (p : path) (r : removal) : event :=
  match r with
  | RemoveError what =>
      Err ("   [FAIL] Error deleting file " +++ p +++ ": " +++ what +++ nl)
  | _ => Out ("   [OK] Deleted: " +++ p +++ nl)
  end.

(** The first line of the input, as the specification reads the response. *)
Fixpoint first_line (s : string) : string :=
  match s with
  | String c s' => if Ascii.eqb c "010" then EmptyString else String c (first_line s')
  | EmptyString => EmptyString
  end.

(** A file of zero bytes that opens and reads to its end. *)
Definition is_empty_file (f : file) : bool :=
  opens f &&
  match content f with [] => true | _ => false end &&
  match ends f with Eof => true | ReadError => false end.

(** The SHA-256 digest of the empty byte string. *)
Definition empty_digest : string :=
  "e3b0c44298fc1c149afbf4c8996fb92427ae41e4649b934ca495991b7852b855".

(** The number a string of decimal digits denotes. *)
Fixpoint decimal_from (acc : Z) (s : string) : Z :=
  match s with
  | String c s' => decimal_from (10 * acc + (Z.of_nat (nat_of_ascii c) - 48)) s'
  | EmptyString => acc
  end.

Definition decimal_value (s : string) : Z := decimal_from 0 s.

Definition is_digit (c : ascii) : bool :=
  (48 <=? nat_of_ascii c)%nat && (nat_of_ascii c <=? 57)%nat.

Fixpoint all_digits (s : string) : bool :=
  match s with
  | String c s' => is_digit c && all_digits s'
  | EmptyString => true
  end.

(** The unit of a byte count of 1024 or more, by the thresholds 1024,
    1024^2 and 1024^3. *)
Definition unit_of (bytes : Z) : Z * string :=
  if bytes <? 1024 ^ 2 then (1024, "KB")
  else if bytes <? 1024 ^ 3 then (1024 ^ 2, "MB")
  else (1024 ^ 3, "GB").

(** The scaled value [bytes / unit] cut, not rounded, to three significant
    digits, as the specification words the number [formatSize] shows. *)
Definition truncated (bytes unit : Z) : string :=
  let h := 100 * bytes / unit in
  if h <? 1000 then
    to_string (h / 100) +++ "." +++
    String (digit (h / 10 mod 10)) (String (digit (h mod 10)) "")
  else if h <? 10000 then
    to_string (h / 100) +++ "." +++ String (digit (h / 10 mod 10)) ""
  else to_string (h / 100).

Definition formatSize_spec (bytes : Z) : string :=
  truncated bytes (fst (unit_of bytes)) +++ " " +++ snd (unit_of bytes).

(** Strings of white space only, and strings without white space. *)
Fixpoint all_space (s : string) : bool :=
  match s with
  | String c s' => isspace c && all_space s'
  | EmptyString => true
  end.

Fixpoint no_space (s : string) : bool :=
  match s with
  | String c s' => negb (isspace c) && no_space s'
  | EmptyString => true
  end.

(** A string that is empty or begins with white space. *)
Definition delimits (s : string) : bool :=
  match s with
  | String c _ => isspace c
  | EmptyString => true
  end.

(** ** The scenario of the specification

    A directory with the files A and B, which both hold "x", and C, which
    holds "y". *)

Definition sample_entries : list directory_entry :=
  [ Entry "d/A" true (File true (list_byte_of_string "x") Eof);
    Entry "d/B" true (File true (list_byte_of_string "x") Eof);
    Entry "d/C" true (File true (list_byte_of_string "y") Eof) ].

Definition sample_disk : disk := [("d/A", true); ("d/B", true); ("d/C", true)].

Definition sample_world (stdin : string) : world :=
  World (complete_walk sample_entries) (fun _ => Some 1) stdin sample_disk.

(** ** Notions for the properties of the rest of the code *)

(** A query that answers yes. *)
Definition is_yes (q : query) : bool :=
  match q with Answer true => true | _ => false end.

(** The checks of [main] on its arguments all pass. *)
Definition valid_arguments (argv : list string) (status : path -> root_status)
  : bool :=
  (List.length argv =? 2)%nat &&
  is_yes (root_exists (status (nth 1 argv ""))) &&
  is_yes (root_is_directory (status (nth 1 argv ""))).

(** One argument, about which a query throws: the first one, or the second
    one after the first has answered yes. *)
Definition query_throws (argv : list string) (status : path -> root_status)
    (what : string) : Prop :=
  List.length argv = 2%nat /\
  (root_exists (status (nth 1 argv "")) = QueryError what \/
   (root_exists (status (nth 1 argv "")) = Answer true /\
    root_is_directory (status (nth 1 argv "")) = QueryError what)).

(** The arguments that [main] turns down with a message: not one argument,
    or one that is answered not to exist, or to exist and not to be a
    directory. *)
Definition turned_down (argv : list string) (status : path -> root_status)
  : Prop :=
  List.length argv <> 2%nat \/
  root_exists (status (nth 1 argv "")) = Answer false \/
  (root_exists (status (nth 1 argv "")) = Answer true /\
   root_is_directory (status (nth 1 argv "")) = Answer false).

(** An entry that phase 1 puts in the map: a regular file whose hash is not
    the empty string. *)
Definition hashed (e : directory_entry) : bool :=
  is_regular_file e && negb (String.eqb (calculateFileHash (entry_file e)) "").

(** Whether a path is among those handed to the deletion loop. *)
Definition listed (files : list path) (p : path) : bool :=
  existsb (String.eqb p) files.

Definition is_out (e : event) : bool :=
  match e with Out _ => true | Err _ => false end.

Definition is_err (e : event) : bool :=
  match e with Out _ => false | Err _ => true end.

(** An input that begins, after white space, with a lone "Y" or "y". *)
Definition affirmative (stdin : string) : Prop :=
  exists pre c post,
    stdin = pre +++ String c post /\
    all_space pre = true /\
    (c = "Y"%char \/ c = "y"%char) /\
    delimits post = true.

(** * Properties *)

(** ** The SHA-256 model on the standard test vectors *)

Example sha256_empty :
  SHA256.digest [] =
  "e3b0c44298fc1c149afbf4c8996fb92427ae41e4649b934ca495991b7852b855".
Proof. vm_compute. reflexivity. Qed.

Example sha256_abc :
  SHA256.digest (list_byte_of_string "abc") =
  "ba7816bf8f01cfea414140de5dae2223b00361a396177a9cb410ff61f20015ad".
Proof. vm_compute. reflexivity. Qed.

Example sha256_two_blocks :
  SHA256.digest
    (list_byte_of_string "abcdbcdecdefdefgefghfghighijhijkijkljklmklmnlmnomnopnopq") =
  "248d6a61d20638b8e5c026930c3e6039a33ce45964ff2167f6ecedd419db06c1".
Proof. vm_compute. reflexivity. Qed.

(** ** The digest is 64 characters long *)

Lemma length_append (a b : string) :
  String.length (a +++ b) = (String.length a + String.length b)%nat.
Proof. induction a as [|c a IH]; cbn; [reflexivity|]. rewrite IH. reflexivity. Qed.

Lemma concat_length (l : list string) :
  Forall (fun x => String.length x = 8%nat) l ->
  String.length (String.concat "" l) = (8 * List.length l)%nat.
Proof.
  induction 1 as [|x l Hx Hl IH]; [reflexivity|].
  cbn [String.concat]. destruct l as [|y l]; [cbn [List.length]; lia|].
  rewrite !length_append, IH, Hx. cbn [List.length String.length]. lia.
Qed.

Lemma hex_length (h : list Z) :
  String.length (SHA256.hex h) = (8 * List.length h)%nat.
Proof.
  unfold SHA256.hex. rewrite concat_length, length_map; [reflexivity|].
  apply Forall_forall. intros x Hx. apply in_map_iff in Hx.
  destruct Hx as (w & <- & _). reflexivity.
Qed.

Lemma processBlock_length (h : list Z) (block : list byte) :
  List.length h = 8%nat -> List.length (SHA256.processBlock h block) = 8%nat.
Proof.
  intros Hh. unfold SHA256.processBlock.
  rewrite length_map, length_combine, Hh. reflexivity.
Qed.

Lemma add_chain_length (data : list byte) :
  forall s,
    List.length (SHA256.chain s) = 8%nat ->
    List.length (SHA256.chain (SHA256.add s data)) = 8%nat.
Proof.
  unfold SHA256.add.
  induction data as [|b data IH]; intros s Hs; [exact Hs|].
  cbn [fold_left]. apply IH. unfold SHA256.add1.
  destruct (Nat.eqb _ 64); cbn [SHA256.chain]; [|exact Hs].
  apply processBlock_length, Hs.
Qed.

(** Whatever was fed, the digest has 64 characters: it is never the empty
    string with which [calculateFileHash] reports a failure. *)
Lemma digest_length (msg : list byte) :
  String.length (SHA256.digest msg) = 64%nat.
Proof.
  unfold SHA256.digest, SHA256.getHash.
  rewrite hex_length, add_chain_length; [reflexivity|].
  apply add_chain_length. reflexivity.
Qed.

(** ** Chunked hashing *)

(** Feeding the hasher in two pieces is feeding it the concatenation. *)
Lemma SHA256_add_app (s : SHA256.t) (a b : list byte) :
  SHA256.add (SHA256.add s a) b = SHA256.add s (a ++ b).
Proof. unfold SHA256.add. symmetry. apply fold_left_app. Qed.

Lemma SHA256_add_nil (s : SHA256.t) : SHA256.add s [] = s.
Proof. reflexivity. Qed.

Section Chunks.

Variable H : hasher.
Hypothesis H_incremental : incremental H.
Variable n : nat.
Hypothesis n_pos : (0 < n)%nat.

(** The loop on a good stream over a file that ends normally: it leaves with
    the short last read in the buffer, after feeding every full chunk. *)
Lemma read_loop_eof (fuel : nat) :
  forall (data : list byte) (sha256 : hasher_state H) (g : nat),
    (List.length data < fuel)%nat ->
    exists sha256' last,
      read_loop H n fuel sha256 (Stream data Eof g false false false) =
        Some (sha256', Stream [] Eof (List.length last) true true false, last) /\
      (List.length last < n)%nat /\
      hasher_add H sha256' last = hasher_add H sha256 data.
Proof.
  induction fuel as [|fuel IH]; intros data sha256 g Hfuel; [lia|].
  cbn [read_loop]. unfold read. cbn [eofbit failbit badbit orb unread closing].
  destruct (n <=? List.length data)%nat eqn:Hle.
  - apply Nat.leb_le in Hle. cbn [fail failbit badbit orb gcount].
    destruct (IH (skipn n data) (hasher_add H sha256 (firstn n (firstn n data))) n)
      as (sha256' & last & Hloop & Hlast & Hadd).
    { rewrite length_skipn. lia. }
    exists sha256', last. split; [exact Hloop|]. split; [exact Hlast|].
    rewrite Hadd, firstn_firstn, Nat.min_id, (proj2 H_incremental), firstn_skipn.
    reflexivity.
  - apply Nat.leb_gt in Hle. cbn [fail failbit badbit orb].
    exists sha256, data. auto.
Qed.

(** A device error leaves the loop with [badbit] set. *)
Lemma read_loop_error (fuel : nat) :
  forall (data : list byte) (sha256 : hasher_state H) (g : nat),
    (List.length data < fuel)%nat ->
    exists sha256' f' buffer,
      read_loop H n fuel sha256 (Stream data ReadError g false false false) =
        Some (sha256', f', buffer) /\ badbit f' = true.
Proof.
  induction fuel as [|fuel IH]; intros data sha256 g Hfuel; [lia|].
  cbn [read_loop]. unfold read. cbn [eofbit failbit badbit orb unread closing].
  destruct (n <=? List.length data)%nat eqn:Hle.
  - apply Nat.leb_le in Hle. cbn [fail failbit badbit orb gcount].
    apply IH. rewrite length_skipn. lia.
  - cbn [fail failbit badbit orb]. eauto.
Qed.

(** Whatever the buffer size, the digest of a file that is read to its end
    is the digest of its content fed in one piece, the empty last read of a
    file whose size is a multiple of the buffer size included. *)
Lemma calculateFileHash_with_contiguous (data : list byte) :
  calculateFileHash_with H n (File true data Eof) = contiguous H data.
Proof.
  unfold calculateFileHash_with, ifstream_open. cbn [opens negb content ends].
  destruct (read_loop_eof (S (List.length data)) data (hasher_init H) 0)
    as (sha256' & last & -> & _ & Hadd); [lia|].
  cbn [gcount badbit]. unfold contiguous. rewrite <- Hadd.
  rewrite firstn_all.
  destruct (0 <? List.length last)%nat eqn:Hlast; [reflexivity|].
  apply Nat.ltb_ge in Hlast.
  assert (last = []) as -> by (apply length_zero_iff_nil; lia).
  rewrite (proj1 H_incremental). reflexivity.
Qed.

Lemma calculateFileHash_with_error (data : list byte) :
  calculateFileHash_with H n (File true data ReadError) = "".
Proof.
  unfold calculateFileHash_with, ifstream_open. cbn [opens negb content ends].
  destruct (read_loop_error (S (List.length data)) data (hasher_init H) 0)
    as (sha256' & f' & buffer & -> & Hbad); [lia|].
  rewrite Hbad. reflexivity.
Qed.

End Chunks.

Lemma BUFFER_SIZE_pos : (0 < BUFFER_SIZE)%nat.
Proof. unfold BUFFER_SIZE. lia. Qed.

Lemma sha256_incremental : incremental sha256_hasher.
Proof. split; [exact SHA256_add_nil|exact SHA256_add_app]. Qed.

(** The result of [calculateFileHash] in each of its three cases. *)
Lemma calculateFileHash_cases (f : file) :
  calculateFileHash f =
    if opens f then
      match ends f with
      | Eof => SHA256.digest (content f)
      | ReadError => ""
      end
    else "".
Proof.
  destruct f as [o data e]. cbn [opens ends content]. unfold calculateFileHash.
  destruct o; [|reflexivity].
  destruct e.
  - apply (calculateFileHash_with_contiguous sha256_hasher sha256_incremental),
      BUFFER_SIZE_pos.
  - apply calculateFileHash_with_error, BUFFER_SIZE_pos.
Qed.

(** [calculateFileHash] gives the empty string exactly when the file does
    not open or its reading meets an error. *)
Lemma calculateFileHash_failure (f : file) :
  calculateFileHash f = "" <-> opens f = false \/ ends f = ReadError.
Proof.
  rewrite calculateFileHash_cases.
  destruct (opens f), (ends f); split; auto; try (intros [H|H]; discriminate).
  intros H. pose proof (digest_length (content f)) as Hlen.
  rewrite H in Hlen. discriminate.
Qed.

(** C5. For a file that opens and is read to its end, the digest that
    [calculateFileHash] computes with reads of 131072 bytes, the short last
    read fed as well, is the digest of the whole content fed to the hasher in
    one piece; this for every incremental hasher in the place of the class
    [SHA256], and so for SHA-256. For 131073 bytes the reads are one full
    buffer and one read of a single byte, and both are fed. *)
Theorem calculateFileHash_chunked :
  (forall H data,
     incremental H ->
     calculateFileHash_with H BUFFER_SIZE (File true data Eof) = contiguous H data) /\
  (forall data,
     calculateFileHash (File true data Eof) = contiguous sha256_hasher data) /\
  (forall H data,
     incremental H ->
     List.length data = Z.to_nat 131073 ->
     List.length (firstn BUFFER_SIZE data) = Z.to_nat 131072 /\
     List.length (skipn BUFFER_SIZE data) = 1%nat /\
     calculateFileHash_with H BUFFER_SIZE (File true data Eof) =
       hasher_getHash H
         (hasher_add H (hasher_add H (hasher_init H) (firstn BUFFER_SIZE data))
                     (skipn BUFFER_SIZE data)) /\
     calculateFileHash_with H BUFFER_SIZE (File true data Eof) = contiguous H data).
Proof.
  assert (forall H data, incremental H ->
            calculateFileHash_with H BUFFER_SIZE (File true data Eof) =
              contiguous H data) as Hall.
  { intros H data HH.
    apply (calculateFileHash_with_contiguous H HH), BUFFER_SIZE_pos. }
  split; [exact Hall|]. split.
  - intros data. apply Hall, sha256_incremental.
  - intros H data HH Hlen.
    split; [rewrite length_firstn, Hlen; unfold BUFFER_SIZE; lia|].
    split; [rewrite length_skipn, Hlen; unfold BUFFER_SIZE; lia|].
    split; [|apply Hall, HH].
    rewrite (Hall H data HH). unfold contiguous.
    rewrite (proj2 HH), firstn_skipn. reflexivity.
Qed.

(** With a buffer of four bytes and a file of five, the fifth byte is fed:
    the digest is that of the five bytes and not that of the first four. *)
Example short_last_read :
  let data := list_byte_of_string "abcde" in
  calculateFileHash_with sha256_hasher 4 (File true data Eof) = SHA256.digest data /\
  calculateFileHash_with sha256_hasher 4 (File true data Eof) <>
    SHA256.digest (firstn 4 data).
Proof. vm_compute. split; [reflexivity|discriminate]. Qed.

Lemma calculateFileHash_chunked_witness :
  incremental sha256_hasher /\
  List.length (repeat "000"%byte (Z.to_nat 131073)) = Z.to_nat 131073 /\
  List.length (skipn BUFFER_SIZE (repeat "000"%byte (Z.to_nat 131073))) = 1%nat /\
  calculateFileHash (File true (repeat "000"%byte (Z.to_nat 131073)) Eof) =
    contiguous sha256_hasher (repeat "000"%byte (Z.to_nat 131073)).
Proof.
  pose proof (repeat_length "000"%byte (Z.to_nat 131073)) as Hlen.
  destruct calculateFileHash_chunked as (_ & Hsha & Hchunks).
  destruct (Hchunks sha256_hasher _ sha256_incremental Hlen) as (_ & H1 & _ & _).
  split; [exact sha256_incremental|]. split; [exact Hlen|].
  split; [exact H1|apply Hsha].
Defined.

(** ** The map: order and content *)

Lemma compare_lt (a b : string) : String.compare a b = Lt <-> String_as_OT.lt a b.
Proof. apply String_as_OT.cmp_lt. Qed.

Lemma compare_gt (a b : string) : String.compare a b = Gt <-> String_as_OT.lt b a.
Proof.
  rewrite <- compare_lt, String.compare_antisym.
  destruct (String.compare b a); cbn; split; congruence.
Qed.

Lemma compare_eq (a b : string) : String.compare a b = Eq <-> a = b.
Proof. apply String_as_OT.cmp_eq. Qed.

Lemma lt_irrefl (a : string) : ~ String_as_OT.lt a a.
Proof. intros H. exact (String_as_OT.lt_not_eq a a H eq_refl). Qed.

Lemma keys_push_back_at (hash : string) (p : path) (m : hashmap) :
  forall k, In k (keys (push_back_at hash p m)) <-> k = hash \/ In k (keys m).
Proof.
  induction m as [|[k' ps] m IH]; intros k; cbn.
  - intuition.
  - destruct (String.compare hash k') eqn:Hc; cbn.
    + apply compare_eq in Hc. subst. intuition.
    + intuition.
    + fold (keys (push_back_at hash p m)). rewrite IH. fold (keys m). intuition.
Qed.

Lemma ascending_push_back_at (hash : string) (p : path) (m : hashmap) :
  ascending m -> ascending (push_back_at hash p m).
Proof.
  unfold ascending.
  induction m as [|[k' ps] m IH]; intros Hm; cbn.
  - repeat constructor.
  - inversion Hm as [|? ? Hm' Hall]; subst.
    destruct (String.compare hash k') eqn:Hc; cbn.
    + constructor; assumption.
    + apply compare_lt in Hc. constructor; [assumption|].
      constructor; [assumption|].
      eapply Forall_impl; [|exact Hall].
      intros a Ha. eapply String_as_OT.lt_trans; eassumption.
    + apply compare_gt in Hc. fold (keys (push_back_at hash p m)).
      constructor; [apply IH; assumption|].
      apply Forall_forall. intros k Hk.
      apply keys_push_back_at in Hk. destruct Hk as [->|Hk]; [assumption|].
      rewrite Forall_forall in Hall. apply Hall. exact Hk.
Qed.

Lemma lookup_not_key (k : string) (m : hashmap) :
  ~ In k (keys m) -> lookup k m = None.
Proof.
  induction m as [|[k' ps] m IH]; cbn; intros Hk; [reflexivity|].
  destruct (String.eqb k k') eqn:He.
  - apply String.eqb_eq in He. subst. tauto.
  - apply IH. tauto.
Qed.

Lemma lookup_push_back_at (hash : string) (p : path) (m : hashmap) (k : string) :
  ascending m ->
  lookup k (push_back_at hash p m) =
    if String.eqb k hash
    then Some (match lookup hash m with Some ps => ps | None => [] end ++ [p])
    else lookup k m.
Proof.
  unfold ascending.
  induction m as [|[k' ps] m IH]; intros Hm; cbn.
  - destruct (String.eqb k hash); reflexivity.
  - inversion Hm as [|? ? Hm' Hall]; subst.
    destruct (String.compare hash k') eqn:Hc; cbn.
    + apply compare_eq in Hc. subst k'. rewrite String.eqb_refl.
      destruct (String.eqb k hash); reflexivity.
    + apply compare_lt in Hc.
      assert (String.eqb hash k' = false) as Hne.
      { apply String.eqb_neq. intros ->. exact (lt_irrefl _ Hc). }
      rewrite Hne.
      rewrite (lookup_not_key hash m).
      * destruct (String.eqb k hash); reflexivity.
      * intros Hin. rewrite Forall_forall in Hall. apply Hall in Hin.
        exact (lt_irrefl _ (String_as_OT.lt_trans _ _ _ Hc Hin)).
    + apply compare_gt in Hc.
      assert (String.eqb hash k' = false) as Hne.
      { apply String.eqb_neq. intros ->. exact (lt_irrefl _ Hc). }
      rewrite Hne, (IH Hm').
      destruct (String.eqb k k') eqn:Hk; [|reflexivity].
      apply String.eqb_eq in Hk. subst k'.
      rewrite String.eqb_sym, Hne. reflexivity.
Qed.

Lemma lookup_In (k : string) (ps : list path) (m : hashmap) :
  ascending m -> In (k, ps) m -> lookup k m = Some ps.
Proof.
  unfold ascending.
  induction m as [|[k' ps'] m IH]; cbn; intros Hm Hin; [contradiction|].
  inversion Hm as [|? ? Hm' Hall]; subst.
  destruct Hin as [Heq|Hin].
  - inversion Heq; subst. rewrite String.eqb_refl. reflexivity.
  - destruct (String.eqb k k') eqn:Hk; [|auto].
    apply String.eqb_eq in Hk. subst k'.
    rewrite Forall_forall in Hall.
    exfalso. apply (lt_irrefl k), Hall.
    change (In (fst (k, ps)) (map fst m)). apply in_map, Hin.
Qed.

Lemma lookup_Some_In (k : string) (ps : list path) (m : hashmap) :
  lookup k m = Some ps -> In (k, ps) m.
Proof.
  induction m as [|[k' ps'] m IH]; cbn; [discriminate|].
  destruct (String.eqb k k') eqn:Hk.
  - apply String.eqb_eq in Hk. intros [= ->]. subst. auto.
  - auto.
Qed.

Lemma paths_of_push_back_at (hash : string) (p : path) (m : hashmap) (k : string) :
  ascending m ->
  paths_of k (push_back_at hash p m) =
    paths_of k m ++ (if String.eqb hash k then [p] else []).
Proof.
  intros Hm. unfold paths_of. rewrite lookup_push_back_at by assumption.
  rewrite (String.eqb_sym hash k).
  destruct (String.eqb k hash) eqn:Hk.
  - apply String.eqb_eq in Hk. subst. reflexivity.
  - rewrite app_nil_r. reflexivity.
Qed.

Lemma build_ascending (hp : list (string * path)) :
  forall m, ascending m -> ascending (build hp m).
Proof.
  induction hp as [|[h p] hp IH]; intros m Hm; cbn; [assumption|].
  apply IH, ascending_push_back_at, Hm.
Qed.

Lemma build_paths_of (k : string) (hp : list (string * path)) :
  forall m, ascending m -> paths_of k (build hp m) = paths_of k m ++ group k hp.
Proof.
  induction hp as [|[h p] hp IH]; intros m Hm; cbn.
  - unfold group. cbn. rewrite app_nil_r. reflexivity.
  - rewrite IH by (apply ascending_push_back_at, Hm).
    rewrite paths_of_push_back_at by assumption.
    rewrite <- app_assoc. f_equal.
    unfold group. cbn. destruct (String.eqb h k); reflexivity.
Qed.

Lemma build_keys (k : string) (hp : list (string * path)) :
  forall m, In k (keys (build hp m)) <-> In k (keys m) \/ In k (map fst hp).
Proof.
  induction hp as [|[h p] hp IH]; intros m; cbn.
  - tauto.
  - rewrite IH, keys_push_back_at. intuition.
Qed.

Lemma inhabited_push_back_at (hash : string) (p : path) (m : hashmap) :
  inhabited m -> inhabited (push_back_at hash p m).
Proof.
  unfold inhabited.
  induction m as [|[k' ps] m IH]; intros Hm; cbn.
  - constructor; [cbn; discriminate|constructor].
  - inversion Hm as [|? ? Hps Hm']; subst.
    destruct (String.compare hash k'); constructor; cbn; auto.
    + intros Hnil. apply app_eq_nil in Hnil. destruct Hnil; discriminate.
    + discriminate.
Qed.

Lemma build_inhabited (hp : list (string * path)) :
  forall m, inhabited m -> inhabited (build hp m).
Proof.
  induction hp as [|[h p] hp IH]; intros m Hm; cbn; [assumption|].
  apply IH, inhabited_push_back_at, Hm.
Qed.

Lemma ascending_nil : ascending [].
Proof. constructor. Qed.

Lemma hash_map_ascending (es : list directory_entry) : ascending (hash_map es).
Proof. apply build_ascending, ascending_nil. Qed.

(** A pair of the map holds exactly the paths discovered with its digest, in
    discovery order. *)
Lemma hash_map_In (es : list directory_entry) (k : string) (ps : list path) :
  In (k, ps) (hash_map es) -> ps = group k (discovered es).
Proof.
  intros Hin.
  pose proof (build_paths_of k (discovered es) [] ascending_nil) as H.
  fold (hash_map es) in H. unfold paths_of in H.
  rewrite (lookup_In k ps _ (hash_map_ascending es) Hin) in H. exact H.
Qed.

Lemma hash_map_lookup (es : list directory_entry) (k : string) :
  group k (discovered es) <> [] ->
  In (k, group k (discovered es)) (hash_map es).
Proof.
  intros Hne. apply lookup_Some_In.
  pose proof (build_paths_of k (discovered es) [] ascending_nil) as H.
  fold (hash_map es) in H. unfold paths_of in H. cbn in H.
  destruct (lookup k (hash_map es)) as [ps|]; [congruence|].
  symmetry in H. contradiction.
Qed.

(** What phase 1 does with a walk. *)
Lemma scan_spec (w : walk) :
  forall m out,
    scan w m out =
      (match thrown w with
       | Some what => inl what
       | None => inr (build (discovered (entries w)) m)
       end,
       out ++ progress (entries w)).
Proof.
  induction w as [|what|e w IH]; intros m out; cbn.
  - rewrite app_nil_r. reflexivity.
  - rewrite app_nil_r. reflexivity.
  - unfold progress. cbn [filter].
    destruct (is_regular_file e) eqn:Hreg; cbn.
    + destruct (String.eqb (calculateFileHash (entry_file e)) "") eqn:Hh; cbn;
        rewrite IH, <- app_assoc; reflexivity.
    + rewrite IH. reflexivity.
Qed.

Lemma entries_complete_walk (es : list directory_entry) :
  entries (complete_walk es) = es /\ thrown (complete_walk es) = None.
Proof.
  induction es as [|e es [IH1 IH2]]; cbn; [auto|].
  fold (complete_walk es). rewrite IH1. auto.
Qed.

(** ** Phase 2 in closed form *)

Lemma measured_app (file_size : path -> option Z) (l1 l2 : list path) :
  measured file_size (l1 ++ l2) = measured file_size l1 ++ measured file_size l2.
Proof. apply flat_map_app. Qed.

Lemma list_duplicates_spec (file_size : path -> option Z) (dups : list path) :
  forall st,
    list_duplicates file_size dups st =
      Phase2 (foundDuplicates st)
             (filesToDelete st ++ dups)
             (fold_left add64 (measured file_size dups) (totalDuplicateSize st))
             (printed st ++ map (duplicate_line file_size) dups).
Proof.
  induction dups as [|p dups IH]; intros st; cbn [list_duplicates].
  - cbn [measured flat_map fold_left map].
    rewrite !app_nil_r. destruct st; reflexivity.
  - unfold measured, duplicate_line in *. cbn [flat_map map].
    destruct (file_size p) as [size|]; rewrite IH;
      cbn [foundDuplicates filesToDelete totalDuplicateSize printed
           app fold_left];
      rewrite <- !app_assoc; reflexivity.
Qed.

Lemma report_group_spec (file_size : path -> option Z) (st : phase2)
    (g : string * list path) :
  report_group file_size st g =
    Phase2 (foundDuplicates st || is_duplicate_group g)
           (filesToDelete st ++ duplicates_of g)
           (fold_left add64 (measured file_size (duplicates_of g))
                      (totalDuplicateSize st))
           (printed st ++ group_report file_size g).
Proof.
  unfold report_group, duplicates_of, group_report, is_duplicate_group.
  destruct (1 <? List.length (snd g))%nat.
  - rewrite list_duplicates_spec.
    cbn [foundDuplicates filesToDelete totalDuplicateSize printed].
    rewrite <- app_assoc, orb_true_r. reflexivity.
  - cbn [measured flat_map fold_left].
    rewrite !app_nil_r, orb_false_r. destruct st; reflexivity.
Qed.

Lemma report_groups_spec (file_size : path -> option Z) (m : hashmap) :
  forall st,
    report_groups file_size m st =
      Phase2 (foundDuplicates st || existsb is_duplicate_group m)
             (filesToDelete st ++ flat_map duplicates_of m)
             (fold_left add64 (measured file_size (flat_map duplicates_of m))
                        (totalDuplicateSize st))
             (printed st ++ flat_map (group_report file_size) m).
Proof.
  unfold report_groups.
  induction m as [|g m IH]; intros st; cbn [fold_left].
  - cbn [measured flat_map fold_left existsb].
    rewrite !app_nil_r, orb_false_r. destruct st; reflexivity.
  - rewrite IH, report_group_spec.
    cbn [foundDuplicates filesToDelete totalDuplicateSize printed flat_map existsb].
    rewrite measured_app, fold_left_app, orb_assoc, <- !app_assoc.
    reflexivity.
Qed.

(** The 64-bit accumulator holds the sum of what was added, modulo 2^64. *)
Lemma fold_add64 (l : list Z) :
  forall t, fold_left add64 l (u64 t) = u64 (t + sum l).
Proof.
  induction l as [|x l IH]; intros t; cbn.
  - rewrite Z.add_0_r. reflexivity.
  - change (add64 (u64 t) x) with (u64 (u64 t + x)). rewrite IH. unfold u64.
    rewrite <- Z.add_assoc, Zplus_mod_idemp_l. reflexivity.
Qed.

Lemma sum_app (l1 l2 : list Z) : sum (l1 ++ l2) = sum l1 + sum l2.
Proof.
  unfold sum. induction l1 as [|x l1 IH]; cbn [app fold_right]; lia.
Qed.

Lemma sum_nonneg (l : list Z) : Forall (fun x => 0 <= x) l -> 0 <= sum l.
Proof. unfold sum. induction 1; cbn [fold_right]; lia. Qed.

(** ** Keeper and duplicates *)

Lemma NoDup_app_disjoint {A : Type} (l1 l2 : list A) (x : A) :
  NoDup (l1 ++ l2) -> In x l1 -> ~ In x l2.
Proof.
  induction l1 as [|a l1 IH]; cbn; intros Hnd Hin; [contradiction|].
  apply NoDup_cons_iff in Hnd. destruct Hnd as [Ha Hnd].
  destruct Hin as [->|Hin]; [|auto].
  intros Hx. apply Ha, in_or_app. auto.
Qed.

Lemma duplicates_of_incl (g : string * list path) :
  incl (duplicates_of g) (snd g).
Proof.
  unfold duplicates_of. destruct (is_duplicate_group g).
  - intros p Hp. destruct (snd g); [exact Hp|right; exact Hp].
  - intros p [].
Qed.

Lemma deletion_list_incl (m : hashmap) :
  incl (flat_map duplicates_of m) (flat_map snd m).
Proof.
  intros p Hp. apply in_flat_map in Hp. destruct Hp as (g & Hg & Hp).
  apply in_flat_map. exists g. split; [exact Hg|].
  apply duplicates_of_incl, Hp.
Qed.

Lemma duplicates_of_cons (k : string) (keeper : path) (others : list path) :
  duplicates_of (k, keeper :: others) = others.
Proof.
  unfold duplicates_of, is_duplicate_group. cbn [snd List.length skipn].
  destruct others; reflexivity.
Qed.

Lemma duplicates_of_skipn (g : string * list path) :
  duplicates_of g = skipn 1 (snd g).
Proof.
  unfold duplicates_of, is_duplicate_group.
  destruct (snd g) as [|x [|y t]]; reflexivity.
Qed.

Lemma group_report_single (file_size : path -> option Z) (k : string) (p : path) :
  group_report file_size (k, [p]) = [].
Proof. reflexivity. Qed.

(** A pair with a single path leaves phase 2 as it was. *)
Lemma report_group_single (file_size : path -> option Z) (st : phase2)
    (k : string) (p : path) :
  report_group file_size st (k, [p]) = st.
Proof. reflexivity. Qed.

(** The paths of the map are those that were inserted. *)
Lemma push_back_at_paths (hash : string) (p : path) (m : hashmap) :
  Permutation (flat_map snd (push_back_at hash p m)) (p :: flat_map snd m).
Proof.
  induction m as [|[k ps] m IH]; cbn [push_back_at].
  - apply Permutation_refl.
  - destruct (String.compare hash k); cbn [flat_map snd].
    + rewrite <- app_assoc. cbn [app]. symmetry. apply Permutation_middle.
    + apply Permutation_refl.
    + rewrite IH. symmetry. apply Permutation_middle.
Qed.

Lemma build_paths (hp : list (string * path)) :
  forall m, Permutation (flat_map snd (build hp m)) (flat_map snd m ++ map snd hp).
Proof.
  induction hp as [|[h p] hp IH]; intros m; cbn [build fold_left map].
  - rewrite app_nil_r. apply Permutation_refl.
  - fold (build hp (push_back_at h p m)). rewrite IH, push_back_at_paths.
    cbn [fst snd app]. apply Permutation_middle.
Qed.

Lemma NoDup_map_flat_map {A B : Type} (f : A -> B) (c : A -> bool) (l : list A) :
  NoDup (map f l) ->
  NoDup (flat_map (fun x => if c x then [f x] else []) l).
Proof.
  induction l as [|x l IH]; cbn [map flat_map]; intros Hnd; [constructor|].
  apply NoDup_cons_iff in Hnd. destruct Hnd as [Hx Hnd].
  destruct (c x); cbn [app]; [|auto].
  constructor; [|auto].
  intros Hin. apply Hx. apply in_flat_map in Hin.
  destruct Hin as (y & Hy & Hin). destruct (c y); [|contradiction].
  destruct Hin as [<-|[]]. apply in_map, Hy.
Qed.

Lemma discovered_paths (es : list directory_entry) :
  map snd (discovered es) =
    flat_map
      (fun e =>
         if is_regular_file e &&
            negb (String.eqb (calculateFileHash (entry_file e)) "")
         then [entry_path e] else [])
      es.
Proof.
  unfold discovered. induction es as [|e es IH]; cbn [flat_map map]; [reflexivity|].
  rewrite map_app, IH.
  destruct (is_regular_file e &&
            negb (String.eqb (calculateFileHash (entry_file e)) ""));
    reflexivity.
Qed.

(** A walk that yields every path once gives a map whose paths are
    distinct. *)
Lemma hash_map_NoDup (es : list directory_entry) :
  NoDup (map entry_path es) -> NoDup (flat_map snd (hash_map es)).
Proof.
  intros Hnd. unfold hash_map.
  eapply Permutation_NoDup; [symmetry; apply build_paths|].
  cbn [flat_map app]. rewrite discovered_paths.
  apply NoDup_map_flat_map, Hnd.
Qed.

(** C1. The keeper of a group is never in the deletion list and every other
    path of the group is in it exactly once, the paths of the map being
    distinct as those of a directory walk are; the deletion list is the
    groups' paths from the second on, in the order of the map; and a digest
    mapped to a single path adds nothing: phase 2 ends as it does on the map
    without that digest. *)
Theorem keeper_invariant
    (file_size : path -> option Z) (m : hashmap) (out : list event)
    (digest : string) (keeper : path) (others : list path) :
  NoDup (flat_map snd m) ->
  In (digest, keeper :: others) m ->
  let r := report_groups file_size m (Phase2 false [] 0 out) in
  filesToDelete r = flat_map duplicates_of m /\
  ~ In keeper (filesToDelete r) /\
  (forall p, In p others -> count_occ string_dec (filesToDelete r) p = 1%nat) /\
  (others = [] ->
   forall m1 m2, m = m1 ++ (digest, [keeper]) :: m2 ->
     r = report_groups file_size (m1 ++ m2) (Phase2 false [] 0 out)).
Proof.
  intros Hnd Hin r.
  assert (filesToDelete r = flat_map duplicates_of m) as Hlist.
  { subst r. rewrite report_groups_spec. reflexivity. }
  split; [exact Hlist|]. rewrite Hlist.
  destruct (in_split _ _ Hin) as (m1 & m2 & ->).
  rewrite flat_map_app in Hnd. cbn [flat_map snd] in Hnd.
  rewrite flat_map_app. cbn [flat_map]. rewrite duplicates_of_cons.
  pose proof (deletion_list_incl m1) as Hincl1.
  pose proof (deletion_list_incl m2) as Hincl2.
  set (A := flat_map snd m1) in *. set (B := flat_map snd m2) in *.
  set (D1 := flat_map duplicates_of m1) in *.
  set (D2 := flat_map duplicates_of m2) in *.
  assert (NoDup (keeper :: others ++ B)) as Hnd2
      by exact (NoDup_app_remove_l _ _ Hnd).
  assert (NoDup (keeper :: others)) as Hnd3.
  { apply (NoDup_app_remove_r (keeper :: others) B). exact Hnd2. }
  assert (forall x, In x (keeper :: others) -> ~ In x D1) as HnotD1.
  { intros x Hx HD1. apply Hincl1 in HD1.
    apply (NoDup_app_disjoint _ _ x Hnd HD1), in_or_app. left. exact Hx. }
  assert (forall x, In x (keeper :: others) -> ~ In x D2) as HnotD2.
  { intros x Hx HD2. apply Hincl2 in HD2. rewrite app_assoc in Hnd.
    exact (NoDup_app_disjoint _ _ x Hnd (in_or_app _ _ _ (or_intror Hx)) HD2). }
  split; [|split].
  - intros Hk. apply in_app_or in Hk. destruct Hk as [Hk|Hk].
    + exact (HnotD1 keeper (in_eq _ _) Hk).
    + apply in_app_or in Hk. destruct Hk as [Hk|Hk].
      * apply NoDup_cons_iff in Hnd3. tauto.
      * exact (HnotD2 keeper (in_eq _ _) Hk).
  - intros p Hp. rewrite !count_occ_app.
    pose proof (proj1 (count_occ_not_In string_dec D1 p)
                  (HnotD1 p (or_intror Hp))) as H1.
    pose proof (proj1 (count_occ_not_In string_dec D2 p)
                  (HnotD2 p (or_intror Hp))) as H2.
    apply NoDup_cons_iff in Hnd3. destruct Hnd3 as [_ Hnd3].
    pose proof (proj1 (NoDup_count_occ string_dec others) Hnd3 p) as Hle.
    pose proof (proj1 (count_occ_In string_dec others p) Hp) as Hge.
    unfold path in *. lia.
  - intros -> m1' m2' Heq. subst r. rewrite Heq.
    unfold report_groups. rewrite !fold_left_app. cbn [fold_left].
    rewrite report_group_single. reflexivity.
Qed.

Ltac decide_NoDup :=
  repeat (apply NoDup_cons; [cbn; intuition discriminate|]); apply NoDup_nil.

Lemma keeper_invariant_witness :
  let m := hash_map sample_entries in
  let r := report_groups (fun _ => Some 1) m (Phase2 false [] 0 []) in
  NoDup (flat_map snd m) /\
  In ("2d711642b726b04401627ca9fbac32f5c8530fb1903cc4db02258717921a4881",
      ["d/A"; "d/B"]) m /\
  filesToDelete r = ["d/B"] /\
  ~ In "d/A" (filesToDelete r) /\
  count_occ string_dec (filesToDelete r) "d/B" = 1%nat.
Proof.
  intros m r.
  assert (NoDup (flat_map snd m)) as Hnd
      by (apply hash_map_NoDup; cbn; decide_NoDup).
  assert (In ("2d711642b726b04401627ca9fbac32f5c8530fb1903cc4db02258717921a4881",
              ["d/A"; "d/B"]) m) as Hin by (vm_compute; left; reflexivity).
  destruct (keeper_invariant (fun _ => Some 1) m [] _ "d/A" ["d/B"] Hnd Hin)
    as (_ & Hkeeper & Hothers & _).
  split; [exact Hnd|]. split; [exact Hin|]. split; [|split].
  - vm_compute. reflexivity.
  - exact Hkeeper.
  - apply Hothers. left. reflexivity.
Defined.

(** ** Order of the report *)

Section SortedAssoc.

Context {V : Type}.

Lemma lookup_None (k : string) (a : list (string * V)) :
  ~ In k (map fst a) -> lookup k a = None.
Proof.
  induction a as [|[k' v] a IH]; cbn; intros Hk; [reflexivity|].
  destruct (String.eqb k k') eqn:He.
  - apply String.eqb_eq in He. subst. tauto.
  - apply IH. tauto.
Qed.

Lemma lookup_below (k : string) (a : list (string * V)) :
  Forall (String_as_OT.lt k) (map fst a) -> lookup k a = None.
Proof.
  intros Hall. apply lookup_None. intros Hin.
  rewrite Forall_forall in Hall. exact (lt_irrefl k (Hall k Hin)).
Qed.

(** Two association lists in strictly ascending order of their keys that
    map every key alike are the same list. *)
Lemma sorted_ext (a : list (string * V)) :
  forall b,
    StronglySorted String_as_OT.lt (map fst a) ->
    StronglySorted String_as_OT.lt (map fst b) ->
    (forall k, lookup k a = lookup k b) ->
    a = b.
Proof.
  induction a as [|[ka va] a IH]; intros [|[kb vb] b] Ha Hb Hext.
  - reflexivity.
  - specialize (Hext kb). cbn in Hext. rewrite String.eqb_refl in Hext.
    discriminate.
  - specialize (Hext ka). cbn in Hext. rewrite String.eqb_refl in Hext.
    discriminate.
  - cbn [map fst] in Ha, Hb.
    inversion Ha as [|? ? Ha' Halla]; subst.
    inversion Hb as [|? ? Hb' Hallb]; subst.
    assert (ka = kb) as ->.
    { destruct (String.compare ka kb) eqn:Hc.
      - apply compare_eq, Hc.
      - apply compare_lt in Hc. specialize (Hext ka). cbn in Hext.
        rewrite String.eqb_refl in Hext.
        destruct (String.eqb ka kb) eqn:He; [apply String.eqb_eq, He|].
        rewrite lookup_below in Hext; [discriminate|].
        eapply Forall_impl; [|exact Hallb].
        intros x Hx. exact (String_as_OT.lt_trans _ _ _ Hc Hx).
      - apply compare_gt in Hc. specialize (Hext kb). cbn in Hext.
        rewrite String.eqb_refl in Hext.
        destruct (String.eqb kb ka) eqn:He; [symmetry; apply String.eqb_eq, He|].
        rewrite lookup_below in Hext; [discriminate|].
        eapply Forall_impl; [|exact Halla].
        intros x Hx. exact (String_as_OT.lt_trans _ _ _ Hc Hx). }
    pose proof (Hext kb) as Hv. cbn in Hv. rewrite String.eqb_refl in Hv.
    injection Hv as ->. f_equal.
    apply IH; [assumption|assumption|].
    intros k. specialize (Hext k). cbn in Hext.
    destruct (String.eqb k kb) eqn:He; [|exact Hext].
    apply String.eqb_eq in He. subst k.
    rewrite !lookup_below by assumption. reflexivity.
Qed.

End SortedAssoc.

Lemma lookup_shape (k : string) (m : hashmap) :
  lookup k (shape m) = option_map (@List.length path) (lookup k m).
Proof.
  induction m as [|[k' ps] m IH]; cbn; [reflexivity|].
  destruct (String.eqb k k'); [reflexivity|exact IH].
Qed.

Lemma keys_shape (m : hashmap) : map fst (shape m) = keys m.
Proof. unfold shape, keys. rewrite map_map. reflexivity. Qed.

(** The map of a scan, key by key. *)
Lemma hash_map_lookup_group (es : list directory_entry) (k : string) :
  lookup k (hash_map es) =
    match group k (discovered es) with
    | [] => None
    | ps => Some ps
    end.
Proof.
  pose proof (build_paths_of k (discovered es) [] ascending_nil) as H.
  fold (hash_map es) in H. unfold paths_of in H. cbn [lookup app] in H.
  destruct (lookup k (hash_map es)) as [ps|] eqn:Hl.
  - rewrite <- H.
    pose proof (build_inhabited (discovered es) [] (Forall_nil _)) as Hinh.
    fold (hash_map es) in Hinh. unfold inhabited in Hinh.
    rewrite Forall_forall in Hinh.
    specialize (Hinh _ (lookup_Some_In _ _ _ Hl)). cbn in Hinh.
    destruct ps; [contradiction|reflexivity].
  - rewrite <- H. reflexivity.
Qed.

Lemma Permutation_filter_length {A : Type} (f : A -> bool) (l l' : list A) :
  Permutation l l' -> List.length (filter f l) = List.length (filter f l').
Proof.
  induction 1 as [|x l l' _ IH|x y l|l l' l'' _ IH1 _ IH2]; cbn.
  - reflexivity.
  - destruct (f x); cbn; congruence.
  - destruct (f x), (f y); reflexivity.
  - congruence.
Qed.

Lemma group_length_Permutation (k : string) (hp hp' : list (string * path)) :
  Permutation hp hp' ->
  List.length (group k hp) = List.length (group k hp').
Proof.
  intros H. unfold group. rewrite !length_map.
  apply Permutation_filter_length, H.
Qed.

(** The keys of the map and the size of each group do not depend on the
    order in which the entries were met. *)
Lemma shape_Permutation (es es' : list directory_entry) :
  Permutation es es' -> shape (hash_map es) = shape (hash_map es').
Proof.
  intros Hperm. apply sorted_ext.
  - rewrite keys_shape. apply hash_map_ascending.
  - rewrite keys_shape. apply hash_map_ascending.
  - intros k. rewrite !lookup_shape, !hash_map_lookup_group.
    assert (Permutation (discovered es) (discovered es')) as Hd
        by (unfold discovered; apply Permutation_flat_map, Hperm).
    pose proof (group_length_Permutation k _ _ Hd) as Hlen.
    destruct (group k (discovered es)), (group k (discovered es'));
      cbn in *; congruence.
Qed.

Lemma reported_shape (m : hashmap) :
  reported m = map fst (filter (fun s => (1 <? snd s)%nat) (shape m)).
Proof.
  unfold reported, keys, shape.
  induction m as [|[k ps] m IH]; [reflexivity|].
  cbn [map filter fst snd]. unfold is_duplicate_group at 1. cbn [snd].
  destruct (1 <? List.length ps)%nat; cbn [map fst]; rewrite IH; reflexivity.
Qed.

Lemma StronglySorted_filter {A : Type} (R : A -> A -> Prop) (f : A -> bool)
    (l : list A) :
  StronglySorted R l -> StronglySorted R (filter f l).
Proof.
  induction 1 as [|x l Hl IH Hall]; cbn; [constructor|].
  destruct (f x); [|exact IH].
  constructor; [exact IH|].
  rewrite Forall_forall in *. intros y Hy. apply filter_In in Hy.
  apply Hall. tauto.
Qed.

Lemma reported_ascending (m : hashmap) :
  ascending m -> StronglySorted String_as_OT.lt (reported m).
Proof.
  unfold ascending, reported, keys.
  induction m as [|g m IH]; cbn [map filter]; intros Hm; [constructor|].
  inversion Hm as [|? ? Hm' Hall]; subst.
  destruct (is_duplicate_group g); cbn [map]; [|auto].
  constructor; [auto|].
  rewrite Forall_forall in *. intros k Hk. apply Hall.
  apply in_map_iff in Hk. destruct Hk as (g' & <- & Hg').
  apply filter_In in Hg'. apply in_map. tauto.
Qed.

Lemma flat_map_filter {A B : Type} (f : A -> list B) (p : A -> bool) (l : list A) :
  (forall x, p x = false -> f x = []) ->
  flat_map f l = flat_map f (filter p l).
Proof.
  intros Hf. induction l as [|x l IH]; cbn; [reflexivity|].
  destruct (p x) eqn:Hp; cbn; rewrite IH; [reflexivity|].
  rewrite (Hf x Hp). reflexivity.
Qed.

(** C10. On the map a scan produces, the groups are reported, and their
    non-keeper members appended to the deletion list, in strictly ascending
    lexicographic order of the digests; the members of a group are the paths
    discovered with its digest, in discovery order; and the sequence of
    reported digests is the same for every order in which the directory
    iteration yields the same entries. *)
Theorem report_order
    (file_size : path -> option Z) (es : list directory_entry) (out : list event) :
  let m := hash_map es in
  let r := report_groups file_size m (Phase2 false [] 0 out) in
  fst (scan (complete_walk es) [] out) = inr m /\
  StronglySorted String_as_OT.lt (reported m) /\
  printed r = out ++ flat_map (group_report file_size) (filter is_duplicate_group m) /\
  filesToDelete r =
    flat_map (fun g => skipn 1 (snd g)) (filter is_duplicate_group m) /\
  (forall k ps, In (k, ps) m -> ps = group k (discovered es)) /\
  (forall es', Permutation es es' -> reported (hash_map es') = reported m).
Proof.
  intros m r. repeat split.
  - rewrite scan_spec. destruct (entries_complete_walk es) as [-> ->].
    reflexivity.
  - apply reported_ascending, hash_map_ascending.
  - subst r. rewrite report_groups_spec. cbn [printed]. f_equal.
    apply flat_map_filter. intros g Hg. unfold group_report. rewrite Hg.
    reflexivity.
  - subst r. rewrite report_groups_spec. cbn [filesToDelete app].
    rewrite (flat_map_filter duplicates_of is_duplicate_group).
    + generalize (filter is_duplicate_group m). intros l.
      induction l as [|g l IH]; [reflexivity|].
      cbn [flat_map]. rewrite IH, duplicates_of_skipn. reflexivity.
    + intros g Hg. unfold duplicates_of. rewrite Hg. reflexivity.
  - intros k ps. apply hash_map_In.
  - intros es' Hperm. subst m. rewrite !reported_shape.
    rewrite (shape_Permutation es es' Hperm). reflexivity.
Qed.

Lemma report_order_witness :
  let m := hash_map sample_entries in
  Permutation sample_entries (rev sample_entries) /\
  In ("a1fce4363854ff888cff4b8e7875d600c2682390412a8cf79b37d0b11148b0fa", ["d/C"]) m /\
  reported (hash_map (rev sample_entries)) = reported m /\
  ["d/C"] =
    group "a1fce4363854ff888cff4b8e7875d600c2682390412a8cf79b37d0b11148b0fa"
          (discovered sample_entries).
Proof.
  intros m.
  assert (Permutation sample_entries (rev sample_entries)) as Hperm
      by apply Permutation_rev.
  assert (In ("a1fce4363854ff888cff4b8e7875d600c2682390412a8cf79b37d0b11148b0fa",
              ["d/C"]) m) as Hin by (vm_compute; right; left; reflexivity).
  destruct (report_order (fun _ => Some 1) sample_entries [])
    as (_ & _ & _ & _ & Hgroup & Hindep).
  split; [exact Hperm|]. split; [exact Hin|].
  split; [exact (Hindep _ Hperm)|exact (Hgroup _ _ Hin)].
Defined.

(** ** Sizes *)

Lemma sum_measured (file_size : path -> option Z) (l : list path) :
  sum (measured file_size l) = sum (map (counted_size file_size) l).
Proof.
  unfold sum, measured, counted_size.
  induction l as [|p l IH]; cbn [flat_map map fold_right]; [reflexivity|].
  destruct (file_size p); cbn [app fold_right]; lia.
Qed.

Lemma measured_nonneg (file_size : path -> option Z) (l : list path) :
  (forall p size, file_size p = Some size -> 0 <= size) ->
  Forall (fun x => 0 <= x) (measured file_size l).
Proof.
  intros Hpos. unfold measured. apply Forall_forall. intros x Hx.
  apply in_flat_map in Hx. destruct Hx as (p & _ & Hx).
  destruct (file_size p) eqn:Hp; [|contradiction].
  destruct Hx as [<-|[]]. eapply Hpos, Hp.
Qed.

(** C4. A non-keeper member of a duplicate group whose size query fails gets
    a warning and is in the deletion list all the same; the total is the sum,
    in the 64-bit accumulator, of the sizes of the listed files whose query
    succeeded, the others counting for 0; and it is that sum exactly whenever
    the sum fits 64 bits. *)
Theorem unmeasured_duplicates
    (file_size : path -> option Z) (m : hashmap) (out : list event) :
  let r := report_groups file_size m (Phase2 false [] 0 out) in
  (forall k ps p,
      In (k, ps) m -> In p (skipn 1 ps) -> file_size p = None ->
      In (size_warning p) (printed r) /\ In p (filesToDelete r) /\
      counted_size file_size p = 0) /\
  totalDuplicateSize r = u64 (sum (measured file_size (filesToDelete r))) /\
  sum (measured file_size (filesToDelete r)) =
    sum (map (counted_size file_size) (filesToDelete r)) /\
  ((forall p size, file_size p = Some size -> 0 <= size) ->
   sum (measured file_size (filesToDelete r)) < 2 ^ 64 ->
   totalDuplicateSize r = sum (measured file_size (filesToDelete r))).
Proof.
  intros r.
  assert (totalDuplicateSize r = u64 (sum (measured file_size (filesToDelete r))))
    as Htotal.
  { subst r. rewrite report_groups_spec.
    cbn [totalDuplicateSize filesToDelete app].
    change 0 with (u64 0) at 1. rewrite fold_add64. reflexivity. }
  split; [|split; [exact Htotal|split; [apply sum_measured|]]].
  - intros k ps p Hin Hp Hsize. subst r. rewrite report_groups_spec.
    cbn [printed filesToDelete app].
    assert (is_duplicate_group (k, ps) = true) as Hdup.
    { unfold is_duplicate_group. cbn [snd]. apply Nat.ltb_lt.
      destruct ps as [|x [|y t]]; cbn in *; try contradiction; lia. }
    split; [|split].
    + apply in_or_app. right. apply in_flat_map. exists (k, ps).
      split; [exact Hin|]. unfold group_report. rewrite Hdup. right.
      cbn [snd]. apply in_map_iff. exists p. split; [|exact Hp].
      unfold duplicate_line, size_warning. rewrite Hsize. reflexivity.
    + apply in_flat_map. exists (k, ps). split; [exact Hin|].
      rewrite duplicates_of_skipn. exact Hp.
    + unfold counted_size. rewrite Hsize. reflexivity.
  - intros Hpos Hfit. rewrite Htotal. unfold u64. apply Z.mod_small.
    split; [|exact Hfit]. apply sum_nonneg, measured_nonneg, Hpos.
Qed.

Lemma unmeasured_duplicates_witness :
  let file_size := fun p : path => if String.eqb p "d/B" then None else Some 7 in
  let m := [("2d", ["d/A"; "d/B"; "d/D"])] in
  let r := report_groups file_size m (Phase2 false [] 0 []) in
  In ("2d", ["d/A"; "d/B"; "d/D"]) m /\
  In "d/B" (skipn 1 ["d/A"; "d/B"; "d/D"]) /\
  file_size "d/B" = None /\
  (forall p size, file_size p = Some size -> 0 <= size) /\
  sum (measured file_size (filesToDelete r)) < 2 ^ 64 /\
  In (size_warning "d/B") (printed r) /\
  In "d/B" (filesToDelete r) /\
  totalDuplicateSize r = 7.
Proof.
  intros file_size m r.
  assert (In ("2d", ["d/A"; "d/B"; "d/D"]) m) as Hin by (left; reflexivity).
  assert (In "d/B" (skipn 1 ["d/A"; "d/B"; "d/D"])) as Hp by (left; reflexivity).
  assert (file_size "d/B" = None) as Hnone by reflexivity.
  assert (forall p size, file_size p = Some size -> 0 <= size) as Hpos.
  { intros p size. unfold file_size. destruct (String.eqb p "d/B"); [discriminate|].
    intros [= <-]. lia. }
  assert (sum (measured file_size (filesToDelete r)) < 2 ^ 64) as Hfit
      by (vm_compute; reflexivity).
  destruct (unmeasured_duplicates file_size m []) as (Hwarn & _ & _ & Hexact).
  destruct (Hwarn _ _ _ Hin Hp Hnone) as (Hw & Hl & _).
  repeat (split; [assumption|]).
  fold r in Hexact. rewrite (Hexact Hpos Hfit). vm_compute. reflexivity.
Defined.

(** ** Confirmation and deletion *)

Lemma confirmed_iff (response : string) :
  confirmed response = true <-> response = "Y" \/ response = "y".
Proof.
  unfold confirmed. split.
  - destruct response as [|c [|c' rest]]; cbn; try discriminate.
    intros H. apply orb_true_iff in H.
    destruct H as [H|H]; apply Ascii.eqb_eq in H; subst; auto.
  - intros [->| ->]; reflexivity.
Qed.

(** The deletion loop in closed form: every listed file gets its removal
    and its line, whatever the earlier removals gave, and the count is that
    of the removals that did not throw. *)
Lemma delete_all_spec (files : list path) :
  forall deleteCount out d,
    delete_all files deleteCount out d =
      (deleteCount +
         Z.of_nat (List.length (filter (fun r => negb (is_error r)) (removals files d))),
       out ++ map (fun x => deletion_line (fst x) (snd x))
                  (combine files (removals files d)),
       fold_left (fun d p => snd (fs_remove p d)) files d).
Proof.
  induction files as [|p files IH]; intros c out d.
  - cbn. rewrite app_nil_r, Z.add_0_r. reflexivity.
  - cbn [delete_all removals combine map fold_left filter].
    destruct (fs_remove p d) as [r d'] eqn:Hr. cbn [fst snd].
    destruct r; rewrite IH; cbn [is_error negb List.length deletion_line fst snd];
      rewrite <- app_assoc; cbn [app]; f_equal; f_equal; lia.
Qed.

Lemma removals_length (files : list path) :
  forall d, List.length (removals files d) = List.length files.
Proof. induction files as [|p files IH]; intros d; cbn; [reflexivity|]. rewrite IH. reflexivity. Qed.

Lemma prompt_and_delete_yes (st : phase2) (stdin : string) (d : disk) :
  confirmed (cin_extract stdin) = true ->
  prompt_and_delete st stdin d =
    (let '(deleteCount, out, d') :=
       delete_all (filesToDelete st) 0
         (summary st ++ [Out (nl +++ "Starting batch deletion..." +++ nl)]) d in
     (out ++ [complete_message deleteCount], d')).
Proof. intros H. unfold prompt_and_delete. rewrite H. reflexivity. Qed.

Lemma prompt_and_delete_no (st : phase2) (stdin : string) (d : disk) :
  confirmed (cin_extract stdin) = false ->
  prompt_and_delete st stdin d = (summary st ++ [skipped_message st], d).
Proof. intros H. unfold prompt_and_delete. rewrite H. reflexivity. Qed.

(** A removal takes one file off the disk when it answers [Removed], and
    leaves the disk as it is otherwise. *)
Lemma fs_remove_disk (p : path) (d : disk) :
  match fst (fs_remove p d) with
  | Removed => S (List.length (snd (fs_remove p d))) = List.length d
  | _ => snd (fs_remove p d) = d
  end.
Proof.
  induction d as [|[q removable] d IH]; cbn; [reflexivity|].
  destruct (String.eqb p q).
  - destruct removable; reflexivity.
  - destruct (fs_remove p d) as [r d']. cbn in *.
    destruct r; cbn; congruence.
Qed.

(** The files that left the disk during the loop are those whose removal
    answered [Removed]. *)
Lemma removed_count (files : list path) :
  forall d,
    (List.length (fold_left (fun d p => snd (fs_remove p d)) files d) +
     List.length (filter is_removed (removals files d)))%nat = List.length d.
Proof.
  induction files as [|p files IH]; intros d; cbn [fold_left removals filter].
  - cbn. lia.
  - pose proof (fs_remove_disk p d) as H. specialize (IH (snd (fs_remove p d))).
    destruct (fst (fs_remove p d)); cbn [is_removed List.length].
    + lia.
    + rewrite H in *. exact IH.
    + rewrite H in *. exact IH.
Qed.

(** The response is the first token of the input: white space before it is
    skipped, and it ends at the next white space or at the end of the
    input. *)
Lemma cin_extract_token (pre tok post : string) :
  all_space pre = true -> no_space tok = true -> tok <> "" ->
  delimits post = true ->
  cin_extract (pre +++ tok +++ post) = tok.
Proof.
  intros Hpre Htok Hne Hpost. unfold cin_extract.
  induction pre as [|c pre IH]; cbn [String.append skip_whitespace].
  - destruct tok as [|c tok]; [contradiction|]. clear Hne.
    cbn [String.append skip_whitespace]. cbn [no_space] in Htok.
    apply andb_true_iff in Htok. destruct Htok as [Hc Htok].
    apply negb_true_iff in Hc. rewrite Hc. cbn [until_whitespace]. rewrite Hc.
    f_equal. clear Hc c.
    induction tok as [|c tok IHtok]; cbn [String.append].
    + destruct post as [|c post]; [reflexivity|].
      cbn [delimits] in Hpost. cbn [until_whitespace]. rewrite Hpost.
      reflexivity.
    + cbn [no_space] in Htok. apply andb_true_iff in Htok.
      destruct Htok as [Hc Htok]. apply negb_true_iff in Hc.
      cbn [until_whitespace]. rewrite Hc, (IHtok Htok). reflexivity.
  - cbn [all_space] in Hpre. apply andb_true_iff in Hpre.
    destruct Hpre as [Hc Hpre]. rewrite Hc. apply IH, Hpre.
Qed.

(** When the input holds white space only, no response is stored. *)
Lemma cin_extract_end_of_input (stdin : string) :
  all_space stdin = true -> cin_extract stdin = "" /\ confirmed (cin_extract stdin) = false.
Proof.
  intros H. assert (cin_extract stdin = "") as ->; [|split; reflexivity].
  unfold cin_extract. induction stdin as [|c s IH]; [reflexivity|].
  cbn [all_space] in H. apply andb_true_iff in H. destruct H as [Hc Hs].
  cbn [skip_whitespace]. rewrite Hc. apply IH, Hs.
Qed.

(** C2, as amended. With duplicates listed, the deletions run if and only if
    the response, which is the first token of the input delimited by white
    space, is exactly "Y" or "y"; then every listed file is handed to the
    removal. With any other response, or none, nothing is removed and the
    number of files left is reported. *)
Theorem confirmation_gate (st : phase2) (stdin : string) (d : disk) :
  let response := cin_extract stdin in
  (response = "Y" \/ response = "y" ->
   prompt_and_delete st stdin d =
     (summary st ++ [Out (nl +++ "Starting batch deletion..." +++ nl)] ++
      map (fun x => deletion_line (fst x) (snd x))
          (combine (filesToDelete st) (removals (filesToDelete st) d)) ++
      [complete_message
         (Z.of_nat (List.length (filter (fun r => negb (is_error r))
                                        (removals (filesToDelete st) d))))],
      fold_left (fun d p => snd (fs_remove p d)) (filesToDelete st) d) /\
   List.length (removals (filesToDelete st) d) = List.length (filesToDelete st)) /\
  (~ (response = "Y" \/ response = "y") ->
   prompt_and_delete st stdin d = (summary st ++ [skipped_message st], d)).
Proof.
  intros response. split.
  - intros Hyes. apply confirmed_iff in Hyes. split; [|apply removals_length].
    rewrite prompt_and_delete_yes by exact Hyes.
    rewrite delete_all_spec. cbn [Z.add]. rewrite <- !app_assoc. reflexivity.
  - intros Hno. apply prompt_and_delete_no.
    destruct (confirmed (cin_extract stdin)) eqn:Hc; [|reflexivity].
    apply confirmed_iff in Hc. contradiction.
Qed.

Lemma confirmation_gate_witness :
  let st := Phase2 true ["d/B"] 1 [] in
  (cin_extract " y n" = "Y" \/ cin_extract " y n" = "y") /\
  snd (prompt_and_delete st " y n" sample_disk) = [("d/A", true); ("d/C", true)] /\
  ~ (cin_extract "yes" = "Y" \/ cin_extract "yes" = "y") /\
  prompt_and_delete st "yes" sample_disk =
    (summary st ++ [skipped_message st], sample_disk).
Proof.
  intros st.
  assert (cin_extract " y n" = "Y" \/ cin_extract " y n" = "y") as Hyes
      by (right; reflexivity).
  assert (~ (cin_extract "yes" = "Y" \/ cin_extract "yes" = "y")) as Hno
      by (intros [H|H]; vm_compute in H; discriminate).
  split; [exact Hyes|]. split; [|split; [exact Hno|]].
  - rewrite (proj1 (proj1 (confirmation_gate st " y n" sample_disk) Hyes)).
    reflexivity.
  - exact (proj2 (confirmation_gate st "yes" sample_disk) Hno).
Defined.

(** C2 as it is stated fails. The response is a token, not a line: on the
    scenario of the specification, the input line "y n" is no single
    character, and B is deleted all the same. *)
Lemma line_gate_counterexample :
  let w := sample_world ("y n" +++ nl) in
  first_line (stdin w) = "y n" /\
  confirmed (first_line (stdin w)) = false /\
  files w = [("d/A", true); ("d/B", true); ("d/C", true)] /\
  snd (findAndRemoveDuplicates "d" w) = [("d/A", true); ("d/C", true)] /\
  snd (findAndRemoveDuplicates "d" w) <> files w.
Proof. vm_compute. repeat split. discriminate. Qed.

(** ** The tally of the deletion loop *)

(** The count that is printed is that of the removals that did not throw:
    a listed file that is no longer there is counted, and announced as
    deleted, though nothing was removed. *)
Lemma tally_spec (files : list path) (d : disk) :
  let '(deleteCount, out, d') := delete_all files 0 [] d in
  let rs := removals files d in
  List.length rs = List.length files /\
  deleteCount = Z.of_nat (List.length (filter (fun r => negb (is_error r)) rs)) /\
  (List.length d' + List.length (filter is_removed rs))%nat = List.length d.
Proof.
  rewrite delete_all_spec. cbn [Z.add].
  split; [apply removals_length|]. split; [reflexivity|apply removed_count].
Qed.

(** C3, at an input where the tally is not the number of files removed:
    B was listed and is gone before the deletions run. The loop writes
    "[OK] Deleted" for it and counts it; the disk is as it was. *)
Theorem tally_counts_absent_file :
  let d := [("d/A", true); ("d/C", true)] in
  fs_remove "d/B" d = (Absent, d) /\
  delete_all ["d/B"] 0 [] d =
    (1, [Out ("   [OK] Deleted: d/B" +++ nl)], d) /\
  snd (findAndRemoveDuplicates "d"
         (World (complete_walk sample_entries) (fun _ => Some 1) "y" d)) = d /\
  last (fst (findAndRemoveDuplicates "d"
               (World (complete_walk sample_entries) (fun _ => Some 1) "y" d)))
       (Out "") =
    Out (nl +++ "**Batch Operation Complete:** 1 files successfully deleted." +++ nl).
Proof. vm_compute. repeat split. Qed.

(** ** The whole function *)

(** When the walk ends normally, [findAndRemoveDuplicates] reports the
    groups of the map of the scan; without a duplicate group it says so and
    returns, with no prompt and no deletion, and otherwise it goes on to the
    prompt. *)
Lemma findAndRemoveDuplicates_complete (rootDir : path) (w : world) :
  thrown (tree w) = None ->
  let m := hash_map (entries (tree w)) in
  let out :=
    [Out ("Starting scan of directory: " +++ rootDir +++ nl);
     Out ("This may take a while for large directories..." +++ nl)] ++
    progress (entries (tree w)) ++
    [Out nl; Out ("Scan Complete. Checking for duplicates..." +++ nl)] in
  let st := report_groups (file_size w) m (Phase2 false [] 0 out) in
  findAndRemoveDuplicates rootDir w =
    if existsb is_duplicate_group m
    then prompt_and_delete st (stdin w) (files w)
    else (out ++ [Out (nl +++ "No duplicate files found in the directory." +++ nl)],
          files w).
Proof.
  intros Hthrown m out st. unfold findAndRemoveDuplicates.
  rewrite scan_spec, Hthrown. fold (hash_map (entries (tree w))). fold m.
  rewrite <- app_assoc. fold out. fold st.
  assert (foundDuplicates st = existsb is_duplicate_group m) as Hfound.
  { subst st. rewrite report_groups_spec. reflexivity. }
  rewrite Hfound. destruct (existsb is_duplicate_group m) eqn:Hdup; [reflexivity|].
  cbn [negb]. f_equal. f_equal.
  subst st. rewrite report_groups_spec. cbn [printed].
  rewrite (flat_map_filter (group_report (file_size w)) is_duplicate_group).
  - assert (filter is_duplicate_group m = []) as ->; [|apply app_nil_r].
    clear -Hdup. induction m as [|g m IH]; [reflexivity|].
    cbn [existsb] in Hdup. apply orb_false_iff in Hdup.
    destruct Hdup as [Hg Hm]. cbn [filter]. rewrite Hg. apply IH, Hm.
  - intros g Hg. unfold group_report. rewrite Hg. reflexivity.
Qed.

(** ** Exit code *)

(** C8. With one argument that names an existing directory, [main] returns
    0, also when the scan is cut short by a file system error: that run
    writes the error, deletes nothing and returns 0 as well. *)
Theorem exit_code_zero (argv : list string) (status : path -> root_status) (w : world) :
  List.length argv = 2%nat ->
  root_exists (status (nth 1 argv "")) = Answer true ->
  root_is_directory (status (nth 1 argv "")) = Answer true ->
  fst (fst (main argv status w)) = Exit 0 /\
  (forall what, thrown (tree w) = Some what ->
     main argv status w =
       (Exit 0,
        [Out ("Starting scan of directory: " +++ nth 1 argv "" +++ nl);
         Out ("This may take a while for large directories..." +++ nl)] ++
        progress (entries (tree w)) ++
        [Err (nl +++ "Filesystem Error during scan: " +++ what +++ nl)],
        files w)).
Proof.
  intros Hargc Hexists Hdir. unfold main.
  rewrite Hargc, Hexists, Hdir. cbn [Nat.eqb negb].
  split.
  - destruct (findAndRemoveDuplicates (nth 1 argv "") w). reflexivity.
  - intros what Hthrown. unfold findAndRemoveDuplicates.
    rewrite scan_spec, Hthrown. rewrite <- app_assoc. reflexivity.
Qed.

Lemma exit_code_zero_witness :
  let argv := ["dupless"; "d"] in
  let status := fun _ : path => RootStatus (Answer true) (Answer true) in
  let w := World (WNext (Entry "d/A" true (File true [] Eof))
                        (WThrow "Permission denied"))
                 (fun _ => Some 0) "y" sample_disk in
  List.length argv = 2%nat /\
  root_exists (status (nth 1 argv "")) = Answer true /\
  root_is_directory (status (nth 1 argv "")) = Answer true /\
  thrown (tree w) = Some "Permission denied" /\
  fst (fst (main argv status w)) = Exit 0 /\
  snd (main argv status w) = sample_disk.
Proof.
  intros argv status w.
  destruct (exit_code_zero argv status w eq_refl eq_refl eq_refl) as [H0 Habort].
  do 4 (split; [reflexivity|]). split; [exact H0|].
  rewrite (Habort "Permission denied" eq_refl). reflexivity.
Defined.

(** ** Empty files *)

Lemma group_app (k : string) (a b : list (string * path)) :
  group k (a ++ b) = group k a ++ group k b.
Proof. unfold group. rewrite filter_app, map_app. reflexivity. Qed.

Lemma calculateFileHash_empty (f : file) :
  is_empty_file f = true -> calculateFileHash f = empty_digest.
Proof.
  unfold is_empty_file. rewrite calculateFileHash_cases.
  destruct f as [o [|b data] e]; cbn [opens content ends];
    destruct o, e; cbn; try discriminate.
  intros _. vm_compute. reflexivity.
Qed.

Lemma discovered_empty (e : directory_entry) :
  is_regular_file e = true -> is_empty_file (entry_file e) = true ->
  discovered [e] = [(empty_digest, entry_path e)].
Proof.
  intros Hreg Hempty. unfold discovered. cbn [flat_map].
  rewrite Hreg, (calculateFileHash_empty _ Hempty). reflexivity.
Qed.

Lemma group_empty_digest (p : path) :
  group empty_digest [(empty_digest, p)] = [p].
Proof. unfold group. cbn [filter fst]. rewrite String.eqb_refl. reflexivity. Qed.

(** A walk that ends normally gives the map of its entries. *)
Lemma scan_complete (w : walk) (out : list event) :
  thrown w = None ->
  scan w [] out = (inr (hash_map (entries w)), out ++ progress (entries w)).
Proof. intros Hthrown. rewrite scan_spec, Hthrown. reflexivity. Qed.

(** Two empty files among the entries: the paths found with the digest of
    no bytes. *)
Lemma empty_files_in_group (es1 : list directory_entry) (e1 : directory_entry)
    (es2 : list directory_entry) (e2 : directory_entry)
    (es3 : list directory_entry) :
  is_regular_file e1 = true -> is_empty_file (entry_file e1) = true ->
  is_regular_file e2 = true -> is_empty_file (entry_file e2) = true ->
  let es := es1 ++ e1 :: es2 ++ e2 :: es3 in
  let ps := group empty_digest (discovered es) in
  In (empty_digest, ps) (hash_map es) /\
  is_duplicate_group (empty_digest, ps) = true /\
  In (entry_path e1) ps /\ In (entry_path e2) ps /\
  In (entry_path e2) (skipn 1 ps) /\
  (group empty_digest (discovered es1) = [] -> nth 0 ps "" = entry_path e1).
Proof.
  intros Hr1 He1 Hr2 He2 es ps.
  set (G1 := group empty_digest (discovered es1)).
  set (G2 := group empty_digest (discovered es2)).
  set (G3 := group empty_digest (discovered es3)).
  assert (ps = G1 ++ entry_path e1 :: G2 ++ entry_path e2 :: G3) as Hgroup.
  { subst ps es. unfold discovered.
    change (e1 :: es2 ++ e2 :: es3) with ([e1] ++ es2 ++ [e2] ++ es3).
    rewrite !flat_map_app. fold (discovered es1) (discovered es2)
      (discovered es3) (discovered [e1]) (discovered [e2]).
    rewrite (discovered_empty e1 Hr1 He1), (discovered_empty e2 Hr2 He2).
    rewrite !group_app, !group_empty_digest. reflexivity. }
  assert (In (empty_digest, ps) (hash_map es)) as Hin.
  { unfold ps. apply hash_map_lookup. fold ps. rewrite Hgroup.
    destruct G1; discriminate. }
  split; [exact Hin|]. rewrite Hgroup.
  split; [|split; [|split; [|split]]].
  - unfold is_duplicate_group. cbn [snd]. apply Nat.ltb_lt.
    rewrite length_app. cbn [List.length]. rewrite length_app.
    cbn [List.length]. lia.
  - apply in_or_app. right. left. reflexivity.
  - apply in_or_app. right. right. apply in_or_app. right. left. reflexivity.
  - destruct G1 as [|g G1]; cbn [app skipn].
    + apply in_or_app. right. left. reflexivity.
    + apply in_or_app. right. right. apply in_or_app. right. left.
      reflexivity.
  - intros HG1. fold G1 in HG1. rewrite HG1. reflexivity.
Qed.

(** C9. A file of zero bytes that opens hashes to the SHA-256 digest of the
    empty byte string, which is not the empty string that signals an error.
    So when the scan meets two empty files, the map that it returns has
    both under that digest, in one group, which is therefore a duplicate
    group; the one met later is put on the deletion list, and the one met
    first is the keeper unless an earlier file has the same digest. The run
    of [findAndRemoveDuplicates] on such a tree reaches the prompt with the
    later file on the list. *)
Theorem empty_files_grouped :
  (forall f, is_empty_file f = true ->
     calculateFileHash f = empty_digest /\
     calculateFileHash f = SHA256.digest [] /\
     calculateFileHash f <> "") /\
  (forall file_size out es1 e1 es2 e2 es3,
     is_regular_file e1 = true -> is_empty_file (entry_file e1) = true ->
     is_regular_file e2 = true -> is_empty_file (entry_file e2) = true ->
     let es := es1 ++ e1 :: es2 ++ e2 :: es3 in
     exists m ps,
       fst (scan (complete_walk es) [] out) = inr m /\
       In (empty_digest, ps) m /\
       is_duplicate_group (empty_digest, ps) = true /\
       In (entry_path e1) ps /\ In (entry_path e2) ps /\
       (forall pr,
          In (entry_path e2)
             (filesToDelete
                (report_groups file_size m (Phase2 false [] 0 pr)))) /\
       (group empty_digest (discovered es1) = [] ->
        nth 0 ps "" = entry_path e1) /\
       (forall rootDir stdin d,
          exists st,
            findAndRemoveDuplicates rootDir
              (World (complete_walk es) file_size stdin d) =
              prompt_and_delete st stdin d /\
            In (entry_path e2) (filesToDelete st))).
Proof.
  split.
  - intros f Hf. rewrite (calculateFileHash_empty f Hf).
    split; [reflexivity|]. split; [vm_compute; reflexivity|discriminate].
  - intros sizes out es1 e1 es2 e2 es3 Hr1 He1 Hr2 He2 es.
    destruct (empty_files_in_group es1 e1 es2 e2 es3 Hr1 He1 Hr2 He2)
      as (Hin & Hdup & H1 & H2 & Hskip & Hkeeper).
    fold es in Hin, Hdup, H1, H2, Hskip, Hkeeper.
    destruct (entries_complete_walk es) as [Hentries Hthrown].
    assert (forall pr,
              In (entry_path e2)
                 (filesToDelete
                    (report_groups sizes (hash_map es)
                                   (Phase2 false [] 0 pr)))) as Hlisted.
    { intros pr. rewrite report_groups_spec. cbn [filesToDelete app].
      apply in_flat_map. eexists. split; [exact Hin|].
      rewrite duplicates_of_skipn. exact Hskip. }
    exists (hash_map es), (group empty_digest (discovered es)).
    split; [rewrite (scan_complete _ out Hthrown), Hentries; reflexivity|].
    do 4 (split; [assumption|]). split; [exact Hlisted|].
    split; [exact Hkeeper|].
    intros rootDir input d. eexists. split.
    + rewrite findAndRemoveDuplicates_complete by exact Hthrown.
      cbn [tree file_size stdin files]. rewrite Hentries.
      assert (existsb is_duplicate_group (hash_map es) = true) as ->.
      { apply existsb_exists. eexists. split; [exact Hin|exact Hdup]. }
      reflexivity.
    + apply Hlisted.
Qed.

(** Two empty files d/empty1 and d/empty2: the scan returns one group with
    both, and the second is on the deletion list. *)
Lemma empty_files_grouped_witness :
  let e1 := Entry "d/empty1" true (File true [] Eof) in
  let e2 := Entry "d/empty2" true (File true [] Eof) in
  is_empty_file (entry_file e1) = true /\
  is_empty_file (entry_file e2) = true /\
  calculateFileHash (entry_file e1) = empty_digest /\
  fst (scan (complete_walk ([] ++ e1 :: [] ++ e2 :: [])) [] []) =
    inr [(empty_digest, ["d/empty1"; "d/empty2"])] /\
  exists m,
    fst (scan (complete_walk ([] ++ e1 :: [] ++ e2 :: [])) [] []) = inr m /\
    In "d/empty2"
       (filesToDelete (report_groups (fun _ => Some 0) m (Phase2 false [] 0 []))).
Proof.
  intros e1 e2.
  destruct empty_files_grouped as [Hhash Hgroup].
  split; [reflexivity|]. split; [reflexivity|].
  split; [exact (proj1 (Hhash (entry_file e1) eq_refl))|].
  split; [vm_compute; reflexivity|].
  destruct (Hgroup (fun _ => Some 0) [] [] e1 [] e2 []
              eq_refl eq_refl eq_refl eq_refl)
    as (m & ps & Hscan & _ & _ & _ & _ & Hdel & _).
  exists m. split; [exact Hscan|apply Hdel].
Defined.

(** ** Decimal renderings *)

Lemma append_assoc (a b c : string) : (a +++ b) +++ c = a +++ (b +++ c).
Proof. induction a as [|x a IH]; cbn; [reflexivity|]. rewrite IH. reflexivity. Qed.

Lemma decimal_from_app (s1 s2 : string) :
  forall acc, decimal_from acc (s1 +++ s2) = decimal_from (decimal_from acc s1) s2.
Proof. induction s1 as [|c s1 IH]; intros acc; cbn; [reflexivity|apply IH]. Qed.

Lemma all_digits_app (s1 s2 : string) :
  all_digits (s1 +++ s2) = all_digits s1 && all_digits s2.
Proof.
  induction s1 as [|c s1 IH]; cbn; [reflexivity|].
  rewrite IH, andb_assoc. reflexivity.
Qed.

Lemma nat_of_digit (d : Z) :
  0 <= d < 10 -> nat_of_ascii (digit d) = (48 + Z.to_nat d)%nat.
Proof. intros H. unfold digit. apply nat_ascii_embedding. lia. Qed.

Lemma digits_app (fuel : nat) :
  forall n acc, digits fuel n acc = digits fuel n "" +++ acc.
Proof.
  induction fuel as [|fuel IH]; intros n acc; cbn [digits]; [reflexivity|].
  destruct (n <? 10); [reflexivity|].
  rewrite IH, (IH _ (String _ "")), append_assoc. reflexivity.
Qed.

(** With enough fuel, the digits do not depend on the fuel. *)
Lemma digits_fuel (f1 : nat) :
  forall f2 n acc,
    (0 < f1)%nat -> (0 < f2)%nat ->
    0 <= n < 2 ^ Z.of_nat f1 -> n < 2 ^ Z.of_nat f2 ->
    digits f1 n acc = digits f2 n acc.
Proof.
  induction f1 as [|f1 IH]; intros f2 n acc Hf1 Hf2 H1 H2; [lia|].
  destruct f2 as [|f2]; [lia|].
  cbn [digits]. destruct (n <? 10) eqn:Hn; [reflexivity|].
  apply Z.ltb_ge in Hn.
  rewrite Nat2Z.inj_succ, Z.pow_succ_r in H1, H2 by lia.
  pose proof (Z.pow_pos_nonneg 2 (Z.of_nat f1) ltac:(lia) ltac:(lia)).
  pose proof (Z.pow_pos_nonneg 2 (Z.of_nat f2) ltac:(lia) ltac:(lia)).
  apply IH.
  - destruct f1; [cbn in H1; lia|lia].
  - destruct f2; [cbn in H2; lia|lia].
  - split; [apply Z.div_pos; lia|]. apply Z.div_lt_upper_bound; lia.
  - apply Z.div_lt_upper_bound; lia.
Qed.

Lemma log2_fuel (n : Z) :
  0 <= n -> 0 <= n < 2 ^ Z.of_nat (S (Z.to_nat (Z.log2 n))).
Proof.
  intros Hn. rewrite Nat2Z.inj_succ, Z2Nat.id by apply Z.log2_nonneg.
  destruct (Z.eq_dec n 0) as [->|Hn0]; [cbn; lia|].
  split; [lia|]. apply Z.log2_spec. lia.
Qed.

Lemma to_string_fuel (fuel : nat) (n : Z) :
  (0 < fuel)%nat -> 0 <= n < 2 ^ Z.of_nat fuel -> to_string n = digits fuel n "".
Proof.
  intros Hfuel H. unfold to_string.
  apply digits_fuel; [lia|exact Hfuel|apply log2_fuel; lia|lia].
Qed.

Lemma is_digit_digit (d : Z) : 0 <= d < 10 -> is_digit (digit d) = true.
Proof.
  intros H. unfold is_digit. rewrite nat_of_digit by exact H.
  apply andb_true_iff. split; apply Nat.leb_le; lia.
Qed.

(** The rendering of a number is made of digits and denotes the number. *)
Lemma digits_value (fuel : nat) :
  forall n,
    0 <= n < 2 ^ Z.of_nat fuel -> (0 < fuel)%nat ->
    decimal_value (digits fuel n "") = n /\ all_digits (digits fuel n "") = true.
Proof.
  unfold decimal_value.
  induction fuel as [|fuel IH]; intros n Hn Hfuel; [lia|].
  cbn [digits]. destruct (n <? 10) eqn:H10.
  - apply Z.ltb_lt in H10. rewrite Z.mod_small by lia.
    cbn [decimal_from all_digits].
    rewrite nat_of_digit, is_digit_digit by lia. split; [lia|reflexivity].
  - apply Z.ltb_ge in H10.
    rewrite Nat2Z.inj_succ, Z.pow_succ_r in Hn by lia.
    pose proof (Z.pow_pos_nonneg 2 (Z.of_nat fuel) ltac:(lia) ltac:(lia)).
    assert (0 < fuel)%nat as Hpos.
    { destruct fuel; [cbn in Hn; lia|lia]. }
    destruct (IH (n / 10)) as [Hv Hd]; [|exact Hpos|].
    { split; [apply Z.div_pos; lia|]. apply Z.div_lt_upper_bound; lia. }
    rewrite digits_app, decimal_from_app, all_digits_app, Hv, Hd.
    cbn [decimal_from all_digits].
    pose proof (Z.mod_pos_bound n 10 ltac:(lia)) as Hmod.
    rewrite nat_of_digit, is_digit_digit by lia. split; [|reflexivity].
    pose proof (Z.div_mod n 10 ltac:(lia)). lia.
Qed.

Lemma to_string_value (n : Z) :
  0 <= n -> decimal_value (to_string n) = n /\ all_digits (to_string n) = true.
Proof.
  intros Hn. unfold to_string. apply digits_value; [|lia].
  apply log2_fuel, Hn.
Qed.

(** C7. The four boundary values, and below 1024 the byte count itself,
    written in decimal digits only, followed by " Bytes". *)
Theorem formatSize_boundaries :
  formatSize 1023 = "1023 Bytes" /\
  formatSize 1024 = "1.00 KB" /\
  formatSize 1048576 = "1.00 MB" /\
  formatSize 1073741824 = "1.00 GB" /\
  (forall bytes, 0 <= bytes < 1024 ->
     formatSize bytes = to_string bytes +++ " Bytes" /\
     decimal_value (to_string bytes) = bytes /\
     all_digits (to_string bytes) = true).
Proof.
  do 4 (split; [vm_compute; reflexivity|]).
  intros bytes Hb. split; [|apply to_string_value; lia].
  unfold formatSize.
  change GB with 1073741824. change MB with 1048576. change KB with 1024.
  destruct (1073741824 <=? bytes) eqn:H1; [apply Z.leb_le in H1; lia|].
  destruct (1048576 <=? bytes) eqn:H2; [apply Z.leb_le in H2; lia|].
  destruct (1024 <=? bytes) eqn:H3; [apply Z.leb_le in H3; lia|].
  reflexivity.
Qed.

Lemma formatSize_boundaries_witness :
  0 <= 512 < 1024 /\
  formatSize 512 = to_string 512 +++ " Bytes" /\
  decimal_value (to_string 512) = 512 /\
  all_digits (to_string 512) = true.
Proof.
  assert (0 <= 512 < 1024) as H by lia.
  split; [exact H|].
  exact (proj2 (proj2 (proj2 (proj2 formatSize_boundaries))) 512 H).
Defined.

(** ** formatSize from 1024 on *)

Lemma to_string_1 (n : Z) :
  0 <= n < 10 -> to_string n = String (digit n) "".
Proof.
  intros H. rewrite (to_string_fuel 4) by (cbn; lia).
  cbn [digits]. rewrite (proj2 (Z.ltb_lt n 10)) by lia.
  rewrite Z.mod_small by lia. reflexivity.
Qed.

Lemma to_string_2 (n : Z) :
  10 <= n < 100 ->
  to_string n = String (digit (n / 10)) (String (digit (n mod 10)) "").
Proof.
  intros H. rewrite (to_string_fuel 7) by (cbn; lia).
  cbn [digits]. rewrite (proj2 (Z.ltb_ge n 10)) by lia.
  rewrite (proj2 (Z.ltb_lt (n / 10) 10))
    by (Z.to_euclidean_division_equations; lia).
  rewrite (Z.mod_small (n / 10))
    by (Z.to_euclidean_division_equations; lia).
  reflexivity.
Qed.

Lemma to_string_3 (n : Z) :
  100 <= n < 1000 ->
  to_string n =
    String (digit (n / 100))
      (String (digit (n / 10 mod 10)) (String (digit (n mod 10)) "")).
Proof.
  intros H. rewrite (to_string_fuel 10) by (cbn; lia).
  cbn [digits]. rewrite (proj2 (Z.ltb_ge n 10)) by lia.
  rewrite (proj2 (Z.ltb_ge (n / 10) 10))
    by (Z.to_euclidean_division_equations; lia).
  rewrite (proj2 (Z.ltb_lt (n / 10 / 10) 10))
    by (Z.to_euclidean_division_equations; lia).
  rewrite (Z.mod_small (n / 10 / 10))
    by (Z.to_euclidean_division_equations; lia).
  rewrite Z.div_div by lia. reflexivity.
Qed.

(** The first four characters of a number written with six decimals, by the
    number of digits of its integer part; [q] is the number in millionths. *)
Lemma first_four_1 (q : Z) :
  0 <= q < 10 ^ 7 ->
  substring 0 4 (to_string (q / 10 ^ 6) +++ "." +++ frac6 q) =
    String (digit (q / 10 ^ 6))
      (String "." (String (digit (q / 10 ^ 5 mod 10))
                     (String (digit (q / 10 ^ 4 mod 10)) ""))).
Proof.
  intros H. rewrite to_string_1 by (Z.to_euclidean_division_equations; lia).
  reflexivity.
Qed.

Lemma first_four_2 (q : Z) :
  10 ^ 7 <= q < 10 ^ 8 ->
  substring 0 4 (to_string (q / 10 ^ 6) +++ "." +++ frac6 q) =
    String (digit (q / 10 ^ 7))
      (String (digit (q / 10 ^ 6 mod 10))
         (String "." (String (digit (q / 10 ^ 5 mod 10)) ""))).
Proof.
  intros H. rewrite to_string_2 by (Z.to_euclidean_division_equations; lia).
  rewrite Z.div_div by lia. reflexivity.
Qed.

Lemma first_four_3 (q : Z) :
  10 ^ 8 <= q < 10 ^ 9 ->
  substring 0 4 (to_string (q / 10 ^ 6) +++ "." +++ frac6 q) =
    String (digit (q / 10 ^ 8))
      (String (digit (q / 10 ^ 7 mod 10))
         (String (digit (q / 10 ^ 6 mod 10)) (String "." ""))).
Proof.
  intros H. rewrite to_string_3 by (Z.to_euclidean_division_equations; lia).
  rewrite !Z.div_div by lia. reflexivity.
Qed.

Lemma to_string_4 (n : Z) :
  1000 <= n < 10000 ->
  to_string n =
    String (digit (n / 1000))
      (String (digit (n / 100 mod 10))
         (String (digit (n / 10 mod 10)) (String (digit (n mod 10)) ""))).
Proof.
  intros H. rewrite (to_string_fuel 14) by (cbn; lia).
  cbn [digits]. rewrite (proj2 (Z.ltb_ge n 10)) by lia.
  rewrite (proj2 (Z.ltb_ge (n / 10) 10))
    by (Z.to_euclidean_division_equations; lia).
  rewrite (proj2 (Z.ltb_ge (n / 10 / 10) 10))
    by (Z.to_euclidean_division_equations; lia).
  rewrite (proj2 (Z.ltb_lt (n / 10 / 10 / 10) 10))
    by (Z.to_euclidean_division_equations; lia).
  rewrite (Z.mod_small (n / 10 / 10 / 10))
    by (Z.to_euclidean_division_equations; lia).
  rewrite !Z.div_div by lia. reflexivity.
Qed.

Lemma first_four_4 (q : Z) :
  10 ^ 9 <= q < 10 ^ 10 ->
  substring 0 4 (to_string (q / 10 ^ 6) +++ "." +++ frac6 q) =
    String (digit (q / 10 ^ 9))
      (String (digit (q / 10 ^ 8 mod 10))
         (String (digit (q / 10 ^ 7 mod 10))
            (String (digit (q / 10 ^ 6 mod 10)) ""))).
Proof.
  intros H. rewrite to_string_4 by (Z.to_euclidean_division_equations; lia).
  rewrite !Z.div_div by lia. reflexivity.
Qed.

(** [millionths x] is the integer nearest to a million times [x]. *)
Lemma millionths_nearest (x : double) :
  0 <= mant x -> 0 <= scale x ->
  0 <= millionths x /\
  2 * Z.abs (millionths x * 2 ^ scale x - mant x * 10 ^ 6) <= 2 ^ scale x.
Proof.
  intros Hm Hs. unfold millionths.
  pose proof (Z.pow_pos_nonneg 2 (scale x) ltac:(lia) Hs) as Hd.
  set (d := 2 ^ scale x) in *. set (n := mant x * 10 ^ 6).
  assert (0 <= n) as Hn by (subst n; lia).
  pose proof (Z.div_mod n d ltac:(lia)) as Hdm.
  pose proof (Z.mod_pos_bound n d Hd) as Hr.
  assert (0 <= n / d) as Hq by (apply Z.div_pos; lia).
  destruct (2 * (n mod d) <? d) eqn:H1.
  - apply Z.ltb_lt in H1. split; [lia|]. nia.
  - apply Z.ltb_ge in H1. destruct (d <? 2 * (n mod d)) eqn:H2.
    + apply Z.ltb_lt in H2. split; [lia|]. nia.
    + apply Z.ltb_ge in H2. destruct (Z.odd (n / d)); split; try lia; nia.
Qed.

(** In the KB range the digits shown are those of the value cut to two
    decimals: the rounding at the sixth decimal does not reach them. *)
Lemma millionths_KB (bytes : Z) :
  0 <= bytes -> millionths (Dbl bytes 10) / 10 ^ 4 = 100 * bytes / 1024.
Proof.
  intros Hb. unfold millionths. cbn [mant scale].
  change (2 ^ 10) with 1024. change (10 ^ 6) with 1000000.
  change (10 ^ 4) with 10000.
  destruct (2 * (bytes * 1000000 mod 1024) <? 1024) eqn:H1;
    [|destruct (1024 <? 2 * (bytes * 1000000 mod 1024)) eqn:H2;
      [|destruct (Z.odd (bytes * 1000000 / 1024))]];
    try apply Z.ltb_lt in H1; try apply Z.ltb_ge in H1;
    try apply Z.ltb_lt in H2; try apply Z.ltb_ge in H2;
    Z.to_euclidean_division_equations; lia.
Qed.

Lemma to_double_exact (bytes : Z) :
  bytes < 2 ^ 53 -> to_double bytes = Dbl bytes 0.
Proof.
  intros H. unfold to_double. rewrite (proj2 (Z.ltb_lt bytes (2 ^ 53)) H).
  reflexivity.
Qed.

Lemma to_double_nonneg (bytes : Z) :
  0 <= bytes -> 0 <= mant (to_double bytes) /\ scale (to_double bytes) = 0.
Proof.
  intros H. unfold to_double. destruct (bytes <? 2 ^ 53); cbn [mant scale].
  - lia.
  - split; [|reflexivity].
    pose proof (Z.pow_nonneg 2 (Z.log2 bytes - 52) ltac:(lia)) as Hp.
    pose proof (Z_div_nonneg_nonneg bytes _ H Hp) as Hq.
    destruct (2 * (bytes mod 2 ^ (Z.log2 bytes - 52)) <? 2 ^ (Z.log2 bytes - 52));
      [|destruct (2 ^ (Z.log2 bytes - 52) <? 2 * (bytes mod 2 ^ (Z.log2 bytes - 52)));
        [|destruct (Z.odd (bytes / 2 ^ (Z.log2 bytes - 52)))]];
      nia.
Qed.

(** C6, as amended. From 1024 bytes on, the unit is chosen by the thresholds
    1024, 1024^2 and 1024^3, and the number shown is the first four
    characters of the scaled value written with six decimals, the sixth
    rounded to nearest: one integer digit and two decimals below 10, two
    integer digits and one decimal below 100, three integer digits and the
    point below 1000, four integer digits below 10000. In the KB range the
    digits shown are those of the scaled value cut to two decimals. *)
Theorem formatSize_scaled (bytes : Z) :
  1024 <= bytes < 2 ^ 64 ->
  let unit := fst (unit_of bytes) in
  let name := snd (unit_of bytes) in
  let q := millionths (fdiv (to_double bytes) unit) in
  formatSize bytes =
    substring 0 4 (to_string (q / 10 ^ 6) +++ "." +++ frac6 q) +++ " " +++ name /\
  0 <= q /\
  (bytes < 2 ^ 53 -> 2 * Z.abs (q * unit - bytes * 10 ^ 6) <= unit) /\
  (q < 10 ^ 7 ->
   formatSize bytes =
     String (digit (q / 10 ^ 6))
       (String "." (String (digit (q / 10 ^ 5 mod 10))
                      (String (digit (q / 10 ^ 4 mod 10)) ""))) +++ " " +++ name) /\
  (10 ^ 7 <= q < 10 ^ 8 ->
   formatSize bytes =
     String (digit (q / 10 ^ 7))
       (String (digit (q / 10 ^ 6 mod 10))
          (String "." (String (digit (q / 10 ^ 5 mod 10)) ""))) +++ " " +++ name) /\
  (10 ^ 8 <= q < 10 ^ 9 ->
   formatSize bytes =
     String (digit (q / 10 ^ 8))
       (String (digit (q / 10 ^ 7 mod 10))
          (String (digit (q / 10 ^ 6 mod 10)) (String "." ""))) +++ " " +++ name) /\
  (10 ^ 9 <= q < 10 ^ 10 ->
   formatSize bytes =
     String (digit (q / 10 ^ 9))
       (String (digit (q / 10 ^ 8 mod 10))
          (String (digit (q / 10 ^ 7 mod 10))
             (String (digit (q / 10 ^ 6 mod 10)) ""))) +++ " " +++ name) /\
  (bytes < 1024 ^ 2 -> q / 10 ^ 4 = 100 * bytes / 1024).
Proof.
  intros Hb unit name q.
  assert (formatSize bytes =
          substring 0 4 (to_string (q / 10 ^ 6) +++ "." +++ frac6 q) +++ " " +++ name)
    as Hfmt.
  { subst q unit name. unfold formatSize, unit_of.
    change GB with (1024 ^ 3). change MB with (1024 ^ 2). change KB with 1024.
    destruct (bytes <? 1024 ^ 2) eqn:H2.
    - apply Z.ltb_lt in H2.
      rewrite (proj2 (Z.leb_gt (1024 ^ 3) bytes)) by lia.
      rewrite (proj2 (Z.leb_gt (1024 ^ 2) bytes)) by lia.
      rewrite (proj2 (Z.leb_le 1024 bytes)) by lia. reflexivity.
    - apply Z.ltb_ge in H2. destruct (bytes <? 1024 ^ 3) eqn:H3.
      + apply Z.ltb_lt in H3.
        rewrite (proj2 (Z.leb_gt (1024 ^ 3) bytes)) by lia.
        rewrite (proj2 (Z.leb_le (1024 ^ 2) bytes)) by lia. reflexivity.
      + apply Z.ltb_ge in H3.
        rewrite (proj2 (Z.leb_le (1024 ^ 3) bytes)) by lia. reflexivity. }
  assert (unit = 2 ^ Z.log2 unit /\ 0 <= Z.log2 unit) as [Hunit Hlog].
  { subst unit. unfold unit_of.
    destruct (bytes <? 1024 ^ 2); [|destruct (bytes <? 1024 ^ 3)];
      cbn [fst]; split; try reflexivity; discriminate. }
  destruct (to_double_nonneg bytes ltac:(lia)) as [Hmant Hscale].
  destruct (millionths_nearest (fdiv (to_double bytes) unit)) as [Hq Hnear].
  { exact Hmant. }
  { unfold fdiv. cbn [scale]. lia. }
  fold q in Hq, Hnear.
  split; [exact Hfmt|]. split; [exact Hq|].
  split; [|split; [|split; [|split; [|split]]]].
  - intros H53. unfold fdiv in Hnear. cbn [mant scale] in Hnear.
    rewrite (to_double_exact bytes H53) in Hnear. cbn [mant scale] in Hnear.
    rewrite Z.add_0_l, <- Hunit in Hnear. exact Hnear.
  - intros H. rewrite Hfmt, first_four_1 by lia. reflexivity.
  - intros H. rewrite Hfmt, first_four_2 by lia. reflexivity.
  - intros H. rewrite Hfmt, first_four_3 by lia. reflexivity.
  - intros H. rewrite Hfmt, first_four_4 by lia. reflexivity.
  - intros H. subst q unit. unfold unit_of.
    rewrite (proj2 (Z.ltb_lt bytes (1024 ^ 2)) H). cbn [fst].
    rewrite to_double_exact by lia. apply millionths_KB. lia.
Qed.

Lemma formatSize_scaled_witness :
  1024 <= 1536 < 2 ^ 64 /\
  millionths (fdiv (to_double 1536) (fst (unit_of 1536))) = 1500000 /\
  formatSize 1536 = "1.50 KB".
Proof.
  assert (1024 <= 1536 < 2 ^ 64) as H by lia.
  split; [exact H|]. split; [reflexivity|].
  destruct (formatSize_scaled 1536 H) as (_ & _ & _ & H1 & _).
  rewrite H1 by reflexivity. reflexivity.
Defined.

(** C6 as it is stated fails. The number shown is not always the scaled value
    cut to three digits: one byte below 2 GB the scaled value is 1.999999999,
    which cut gives 1.99; written with six decimals it is 2.000000, and
    "2.00" is shown. *)
Lemma formatSize_truncation_counterexample :
  formatSize 2147483647 = "2.00 GB" /\
  formatSize_spec 2147483647 = "1.99 GB" /\
  100 * 2147483647 / 1024 ^ 3 = 199 /\
  formatSize 2147483647 <> formatSize_spec 2147483647.
Proof. vm_compute. repeat split. discriminate. Qed.

(** ** The scenario of the specification, end to end *)

(** A and B hold "x" and C holds "y": one group, with A as keeper; on "y"
    B is deleted, A and C remain, and the exit code is 0. *)
Example scenario_yes :
  main ["dupless"; "d"] (fun _ => RootStatus (Answer true) (Answer true))
       (sample_world "y") =
    (Exit 0,
     [Out ("Starting scan of directory: d" +++ nl);
      Out ("This may take a while for large directories..." +++ nl);
      Out ("Calculating hash for: d/A" +++ cr);
      Out ("Calculating hash for: d/B" +++ cr);
      Out ("Calculating hash for: d/C" +++ cr);
      Out nl;
      Out ("Scan Complete. Checking for duplicates..." +++ nl);
      Out (nl +++ "--- Duplicate Group (Keeper: d/A) ---" +++ nl);
      Out ("   -> Duplicate: d/B (1 Bytes)" +++ nl);
      Out (nl +++ bar +++ nl);
      Out ("   Summary: 1 duplicate file(s) identified." +++ nl);
      Out ("   Total Size to Reclaim: 1 Bytes" +++ nl);
      Out "   Do you want to **delete ALL** 1 files listed above (Y/N)? ";
      Out (nl +++ bar +++ nl);
      Out (nl +++ "Starting batch deletion..." +++ nl);
      Out ("   [OK] Deleted: d/B" +++ nl);
      Out (nl +++ "**Batch Operation Complete:** 1 files successfully deleted." +++ nl)],
     [("d/A", true); ("d/C", true)]).
Proof. vm_compute. reflexivity. Qed.

(** On any other answer nothing is deleted. *)
Example scenario_no :
  snd (main ["dupless"; "d"] (fun _ => RootStatus (Answer true) (Answer true))
            (sample_world "N")) =
    sample_disk /\
  last (snd (fst (main ["dupless"; "d"]
                       (fun _ => RootStatus (Answer true) (Answer true))
                       (sample_world "N")))) (Out "") =
    Out (nl +++ "Deletion skipped for all 1 identified files." +++ nl).
Proof. vm_compute. split; reflexivity. Qed.

(** The accumulator of the sizes is 64 bits wide: two duplicates of 2^63
    bytes each bring it back to 0. *)
Example total_wraps_at_64_bits :
  totalDuplicateSize
    (report_groups (fun _ => Some (2 ^ 63)) [("2d", ["d/A"; "d/B"; "d/D"])]
                   (Phase2 false [] 0 [])) = 0.
Proof. vm_compute. reflexivity. Qed.

(** * Further properties of the code *)

(** ** main: the exit code *)

(** X1. [main] returns 0 exactly when it has one argument about which both
    queries answer yes. It returns 1 exactly when it has not one argument,
    or the argument is answered not to exist, or to exist and not to be a
    directory. And the process is aborted, an exception leaving [main],
    exactly when it has one argument and a query about it throws. No other
    exit code is returned. Whenever the checks do not all pass the disk is
    as it was and nothing was scanned: the result is the same whatever the
    tree, the sizes and the input are; and when 1 is returned one message
    was written, on the error stream. *)
Theorem main_exit_code (argv : list string) (status : path -> root_status)
    (w : world) :
  (fst (fst (main argv status w)) = Exit 0 <-> valid_arguments argv status = true) /\
  (fst (fst (main argv status w)) = Exit 1 <-> turned_down argv status) /\
  (forall what,
     fst (fst (main argv status w)) = Abort what <-> query_throws argv status what) /\
  (forall code,
     fst (fst (main argv status w)) = Exit code -> code = 0 \/ code = 1) /\
  (valid_arguments argv status = false ->
   snd (main argv status w) = files w /\
   (turned_down argv status ->
    exists msg, snd (fst (main argv status w)) = [Err msg]) /\
   forall tree' file_size' stdin',
     main argv status (World tree' file_size' stdin' (files w)) =
       main argv status w).
Proof.
  unfold valid_arguments, turned_down, query_throws, main.
  destruct (List.length argv =? 2)%nat eqn:Hargc; cbn [negb andb];
    [apply Nat.eqb_eq in Hargc|apply Nat.eqb_neq in Hargc];
    [destruct (root_exists (status (nth 1 argv ""))) as [[|]|what1];
     [destruct (root_is_directory (status (nth 1 argv ""))) as [[|]|what2];
      [destruct (findAndRemoveDuplicates (nth 1 argv "") w) as [out d]| |]| |]|];
    cbn [is_yes andb fst snd];
    (split; [split; intros H; congruence|]);
    (split; [split; [intros H; try discriminate H; auto|
                     intros [H|[H|[H1 H2]]]; congruence]|]);
    (split; [intros what; split;
             [intros H; try discriminate H; injection H as <-; auto|
              intros [H1 [H2|[H2 H3]]]; congruence]|]);
    (split; [intros code H; try discriminate H; injection H as <-; auto|]);
    intros H; try discriminate H;
    (split; [reflexivity|]);
    (split; [|reflexivity]);
    intros Hdown;
    first [eexists; reflexivity
          |exfalso; destruct Hdown as [Hdown|[Hdown|[Hdown Hdown2]]]; congruence].
Qed.

(** A name too long for the file system: the first query throws, the
    process is aborted, and the disk is as it was. *)
Lemma main_exit_code_witness :
  let status := fun _ : path =>
    RootStatus (QueryError "File name too long") (Answer false) in
  valid_arguments ["dupless"; "d"] status = false /\
  query_throws ["dupless"; "d"] status "File name too long" /\
  fst (fst (main ["dupless"; "d"] status (sample_world "y"))) =
    Abort "File name too long" /\
  snd (main ["dupless"; "d"] status (sample_world "y")) = sample_disk.
Proof.
  intros status.
  assert (valid_arguments ["dupless"; "d"] status = false) as Hinvalid
      by reflexivity.
  assert (query_throws ["dupless"; "d"] status "File name too long") as Hthrows
      by (split; [reflexivity|left; reflexivity]).
  destruct (main_exit_code ["dupless"; "d"] status (sample_world "y"))
    as (_ & _ & Habort & _ & Hquiet).
  split; [exact Hinvalid|]. split; [exact Hthrows|].
  split; [exact (proj2 (Habort _) Hthrows)|].
  exact (proj1 (Hquiet Hinvalid)).
Defined.

(** ** calculateFileHash: the error result *)

(** X2. Whatever the hasher and the size of the buffer, [calculateFileHash]
    gives the empty string for a file that does not open and for a file
    whose reading meets an error, however many bytes were read and fed
    before the error. *)
Theorem calculateFileHash_sentinel (H : hasher) (n : nat) (f : file) :
  (0 < n)%nat ->
  opens f = false \/ ends f = ReadError ->
  calculateFileHash_with H n f = "".
Proof.
  intros Hn Hfail. destruct f as [o data e]. cbn [opens ends] in Hfail.
  destruct o.
  - destruct Hfail as [Hfail|Hfail]; [discriminate|]. subst e.
    apply calculateFileHash_with_error, Hn.
  - reflexivity.
Qed.

Lemma calculateFileHash_sentinel_witness :
  (0 < BUFFER_SIZE)%nat /\
  ends (File true (list_byte_of_string "partly read") ReadError) = ReadError /\
  calculateFileHash (File true (list_byte_of_string "partly read") ReadError) = "".
Proof.
  split; [exact BUFFER_SIZE_pos|]. split; [reflexivity|].
  exact (calculateFileHash_sentinel sha256_hasher BUFFER_SIZE
           (File true (list_byte_of_string "partly read") ReadError)
           BUFFER_SIZE_pos (or_intror eq_refl)).
Defined.

(** ** Phase 1: what enters the map *)

Lemma in_group (k : string) (p : path) (hp : list (string * path)) :
  In p (group k hp) <-> In (k, p) hp.
Proof.
  unfold group. rewrite in_map_iff. split.
  - intros ([k' p'] & Hp & Hin). apply filter_In in Hin. cbn [fst snd] in *.
    destruct Hin as [Hin Hk]. apply String.eqb_eq in Hk. subst. exact Hin.
  - intros Hin. exists (k, p). split; [reflexivity|].
    apply filter_In. split; [exact Hin|]. apply String.eqb_refl.
Qed.

Lemma in_discovered (k : string) (p : path) (es : list directory_entry) :
  In (k, p) (discovered es) <->
  exists e, In e es /\ hashed e = true /\
            calculateFileHash (entry_file e) = k /\ entry_path e = p.
Proof.
  unfold discovered. rewrite in_flat_map. split.
  - intros (e & He & Hin). exists e. fold (hashed e) in Hin.
    destruct (hashed e); [|contradiction].
    destruct Hin as [Heq|[]]. inversion Heq. auto.
  - intros (e & He & Hh & Hk & Hp). exists e. split; [exact He|].
    fold (hashed e). rewrite Hh, Hk, Hp. left. reflexivity.
Qed.

Lemma in_hash_map (k : string) (p : path) (es : list directory_entry) :
  (exists ps, In (k, ps) (hash_map es) /\ In p ps) <-> In (k, p) (discovered es).
Proof.
  split.
  - intros (ps & Hin & Hp). rewrite (hash_map_In es k ps Hin) in Hp.
    apply in_group, Hp.
  - intros Hin. apply in_group in Hin.
    exists (group k (discovered es)). split; [|exact Hin].
    apply hash_map_lookup. intros Hnil. rewrite Hnil in Hin. exact Hin.
Qed.

(** X3. When the iteration ends normally, a path is in the map under a
    digest exactly when the walk met a regular file of that path whose hash
    is that digest and is not empty: entries that are not regular files and
    files whose hashing failed are nowhere in the map, and no other path
    is. *)
Theorem scan_membership (w : walk) (out out' : list event) (m : hashmap)
    (k : string) (p : path) :
  scan w [] out = (inr m, out') ->
  ((exists ps, In (k, ps) m /\ In p ps) <->
   (exists e, In e (entries w) /\ is_regular_file e = true /\
              calculateFileHash (entry_file e) = k /\ k <> "" /\
              entry_path e = p)).
Proof.
  rewrite scan_spec. destruct (thrown w); [discriminate|].
  intros [= <- _]. fold (hash_map (entries w)).
  rewrite in_hash_map, in_discovered. unfold hashed.
  split; intros (e & He & H); exists e; split; try exact He.
  - destruct H as (Hh & Hk & Hp). apply andb_true_iff in Hh.
    destruct Hh as [Hreg Hne]. apply negb_true_iff, String.eqb_neq in Hne.
    subst k. auto.
  - destruct H as (Hreg & Hk & Hne & Hp). subst k.
    rewrite Hreg. apply String.eqb_neq in Hne. rewrite Hne. auto.
Qed.

Lemma scan_membership_witness :
  let w := complete_walk
             (Entry "d/sub" false (File false [] Eof) ::
              Entry "d/locked" true (File false [] Eof) :: sample_entries) in
  fst (scan w [] []) = inr (hash_map (entries w)) /\
  (exists ps, In ("2d711642b726b04401627ca9fbac32f5c8530fb1903cc4db02258717921a4881", ps)
                 (hash_map (entries w)) /\ In "d/B" ps) /\
  (forall k, ~ (exists ps, In (k, ps) (hash_map (entries w)) /\ In "d/locked" ps)).
Proof.
  intros w.
  assert (scan w [] [] = (inr (hash_map (entries w)), snd (scan w [] [])))
    as Hscan by (vm_compute; reflexivity).
  split; [rewrite Hscan; reflexivity|]. split.
  - apply (proj2 (scan_membership w [] _ _ _ "d/B" Hscan)).
    exists (Entry "d/B" true (File true (list_byte_of_string "x") Eof)).
    split; [right; right; right; left; reflexivity|].
    split; [reflexivity|]. split; [vm_compute; reflexivity|].
    split; [discriminate|reflexivity].
  - intros k Hin.
    apply (proj1 (scan_membership w [] _ _ k "d/locked" Hscan)) in Hin.
    destruct Hin as (e & He & Hreg & Hk & Hne & Hp).
    destruct He as [<-|[<-|[<-|[<-|[<-|[]]]]]];
      cbn [entry_path is_regular_file] in Hp, Hreg;
      try discriminate Hp; try discriminate Hreg.
    apply Hne. rewrite <- Hk. reflexivity.
Defined.

(** ** Phase 2: which files are nominated *)

Lemma discovered_app (es1 es2 : list directory_entry) :
  discovered (es1 ++ es2) = discovered es1 ++ discovered es2.
Proof. unfold discovered. apply flat_map_app. Qed.

Lemma discovered_cons (e : directory_entry) (es : list directory_entry) :
  discovered (e :: es) =
    (if hashed e then [(calculateFileHash (entry_file e), entry_path e)] else [])
    ++ discovered es.
Proof. reflexivity. Qed.

(** A place in the sequence of the discovered files is a place in the
    walk. *)
Lemma discovered_split (es : list directory_entry) :
  forall k p hp1 hp2,
    discovered es = hp1 ++ (k, p) :: hp2 ->
    exists es1 e es2,
      es = es1 ++ e :: es2 /\ discovered es1 = hp1 /\ hashed e = true /\
      calculateFileHash (entry_file e) = k /\ entry_path e = p.
Proof.
  induction es as [|e0 es IH]; intros k p hp1 hp2 Heq.
  - destruct hp1; discriminate.
  - rewrite discovered_cons in Heq. destruct (hashed e0) eqn:Hh.
    + destruct hp1 as [|x hp1]; cbn [app] in Heq.
      * inversion Heq; subst. exists [], e0, es. auto.
      * inversion Heq; subst.
        destruct (IH _ _ _ _ H1) as (es1 & e & es2 & -> & Hd & He & Hk & Hp).
        exists (e0 :: es1), e, es2. rewrite discovered_cons, Hh, Hd. auto.
    + destruct (IH _ _ _ _ Heq) as (es1 & e & es2 & -> & Hd & He & Hk & Hp).
      exists (e0 :: es1), e, es2. rewrite discovered_cons, Hh, Hd. auto.
Qed.

Lemma group_cons (k k' : string) (p' : path) (hp : list (string * path)) :
  group k ((k', p') :: hp) =
    if String.eqb k' k then p' :: group k hp else group k hp.
Proof. unfold group. cbn [filter fst]. destruct (String.eqb k' k); reflexivity. Qed.

(** The paths of a group from the second on are the paths discovered after
    another one with the same digest. *)
Lemma in_tail_group (k : string) (p : path) (hp : list (string * path)) :
  In p (skipn 1 (group k hp)) <->
  exists hp1 hp2, hp = hp1 ++ (k, p) :: hp2 /\ In k (map fst hp1).
Proof.
  induction hp as [|[k' p'] hp IH].
  - cbn. split; [contradiction|]. intros (hp1 & hp2 & Heq & _).
    destruct hp1; discriminate.
  - rewrite group_cons. destruct (String.eqb k' k) eqn:Hk.
    + apply String.eqb_eq in Hk. subst k'. cbn [skipn].
      rewrite in_group. split.
      * intros Hin. destruct (in_split _ _ Hin) as (l1 & l2 & ->).
        exists ((k, p') :: l1), l2. split; [reflexivity|]. left. reflexivity.
      * intros (hp1 & hp2 & Heq & Hin). destruct hp1 as [|x hp1]; [contradiction|].
        inversion Heq; subst. apply in_elt.
    + apply String.eqb_neq in Hk. rewrite IH. split.
      * intros (hp1 & hp2 & -> & Hin). exists ((k', p') :: hp1), hp2.
        split; [reflexivity|]. right. exact Hin.
      * intros (hp1 & hp2 & Heq & Hin). destruct hp1 as [|x hp1]; [contradiction|].
        inversion Heq; subst. exists hp1, hp2. split; [reflexivity|].
        destruct Hin as [Hin|Hin]; [cbn in Hin; congruence|exact Hin].
Qed.

Lemma in_deletion_list (es : list directory_entry) (p : path) :
  In p (flat_map duplicates_of (hash_map es)) <->
  exists k hp1 hp2, discovered es = hp1 ++ (k, p) :: hp2 /\ In k (map fst hp1).
Proof.
  rewrite in_flat_map. split.
  - intros ([k ps] & Hin & Hp). rewrite duplicates_of_skipn in Hp.
    cbn [snd] in Hp. rewrite (hash_map_In es k ps Hin) in Hp.
    apply in_tail_group in Hp. destruct Hp as (hp1 & hp2 & Hp).
    exists k, hp1, hp2. exact Hp.
  - intros (k & hp1 & hp2 & Heq & Hk).
    assert (In p (skipn 1 (group k (discovered es)))) as Hp
        by (apply in_tail_group; eauto).
    exists (k, group k (discovered es)). split.
    + apply hash_map_lookup. intros Hnil. rewrite Hnil in Hp. exact Hp.
    + rewrite duplicates_of_skipn. exact Hp.
Qed.

(** On the map of the entries: the listed paths are those of the hashed
    files met after a hashed file with the same digest. *)
Lemma later_twin_listed
    (file_size : path -> option Z) (es : list directory_entry)
    (out : list event) (p : path) :
  In p (filesToDelete
          (report_groups file_size (hash_map es) (Phase2 false [] 0 out))) <->
  exists es1 e es2 e',
    es = es1 ++ e :: es2 /\ entry_path e = p /\ hashed e = true /\
    In e' es1 /\ hashed e' = true /\
    calculateFileHash (entry_file e') = calculateFileHash (entry_file e).
Proof.
  rewrite report_groups_spec. cbn [filesToDelete app].
  rewrite in_deletion_list. split.
  - intros (k & hp1 & hp2 & Heq & Hk).
    destruct (discovered_split es _ _ _ _ Heq)
      as (es1 & e & es2 & -> & Hd & He & Hhash & Hp).
    apply in_map_iff in Hk. destruct Hk as ([k' p'] & Hk' & Hin).
    cbn [fst] in Hk'. subst k'. rewrite <- Hd in Hin.
    apply in_discovered in Hin. destruct Hin as (e' & He' & Hh' & Hk' & _).
    exists es1, e, es2, e'. repeat split; try assumption. congruence.
  - intros (es1 & e & es2 & e' & -> & Hp & He & He' & Hh' & Hk).
    exists (calculateFileHash (entry_file e)), (discovered es1), (discovered es2).
    split.
    + rewrite discovered_app, discovered_cons, He, Hp. reflexivity.
    + apply in_map_iff. exists (calculateFileHash (entry_file e), entry_path e').
      split; [reflexivity|]. apply in_discovered. exists e'. auto.
Qed.

(** X4. When the iteration ends normally, phase 2 puts a path on the
    deletion list, from the map that the scan returns, exactly when the walk
    met a regular file of that path whose hash succeeded after another such
    file with the same digest: the first file met with a digest is never
    listed, every later one is. *)
Theorem nominated_iff_later_twin
    (file_size : path -> option Z) (w : walk) (out : list event) (p : path) :
  thrown w = None ->
  exists m out',
    scan w [] out = (inr m, out') /\
    forall pr,
      In p (filesToDelete
              (report_groups file_size m (Phase2 false [] 0 pr))) <->
      exists es1 e es2 e',
        entries w = es1 ++ e :: es2 /\ entry_path e = p /\ hashed e = true /\
        In e' es1 /\ hashed e' = true /\
        calculateFileHash (entry_file e') = calculateFileHash (entry_file e).
Proof.
  intros Hthrown. exists (hash_map (entries w)), (out ++ progress (entries w)).
  split; [apply scan_complete, Hthrown|].
  intros pr. apply later_twin_listed.
Qed.

(** The scan of A and B, which hold "x", and C, which holds "y": B is
    listed, being met after A. *)
Lemma nominated_iff_later_twin_witness :
  thrown (complete_walk sample_entries) = None /\
  exists m out',
    scan (complete_walk sample_entries) [] [] = (inr m, out') /\
    In "d/B" (filesToDelete
                (report_groups (fun _ => Some 1) m (Phase2 false [] 0 []))).
Proof.
  assert (thrown (complete_walk sample_entries) = None) as Hthrown
      by reflexivity.
  split; [exact Hthrown|].
  destruct (nominated_iff_later_twin (fun _ => Some 1)
              (complete_walk sample_entries) [] "d/B" Hthrown)
    as (m & out' & Hscan & Hlisted).
  exists m, out'. split; [exact Hscan|].
  apply (proj2 (Hlisted [])).
  exists [Entry "d/A" true (File true (list_byte_of_string "x") Eof)],
         (Entry "d/B" true (File true (list_byte_of_string "x") Eof)),
         [Entry "d/C" true (File true (list_byte_of_string "y") Eof)],
         (Entry "d/A" true (File true (list_byte_of_string "x") Eof)).
  split; [reflexivity|]. split; [reflexivity|].
  split; [vm_compute; reflexivity|]. split; [left; reflexivity|].
  split; [vm_compute; reflexivity|reflexivity].
Defined.





(** ** Phase 2: how many files are nominated *)

Lemma deletion_list_length (m : hashmap) :
  inhabited m ->
  (List.length (flat_map duplicates_of m) + List.length m)%nat =
    List.length (flat_map snd m).
Proof.
  unfold inhabited. induction 1 as [|[k ps] m Hps _ IH]; [reflexivity|].
  cbn [flat_map List.length snd]. rewrite !length_app, duplicates_of_skipn.
  cbn [snd] in *. destruct ps as [|x ps]; [contradiction|].
  cbn [skipn List.length]. lia.
Qed.

Lemma found_iff_listed (m : hashmap) :
  existsb is_duplicate_group m = true <-> flat_map duplicates_of m <> [].
Proof.
  induction m as [|g m IH]; cbn [existsb flat_map].
  - split; [discriminate|congruence].
  - rewrite orb_true_iff, IH. unfold duplicates_of at 2.
    destruct (is_duplicate_group g) eqn:Hg.
    + unfold is_duplicate_group in Hg. apply Nat.ltb_lt in Hg.
      destruct (snd g) as [|x [|y t]]; cbn in Hg; try lia.
      cbn [skipn app]. split; [discriminate|auto].
    + cbn [app]. split; [intros [H|H]; [discriminate|exact H]|auto].
Qed.

(** On the map of the entries: one file per digest is not listed. *)
Lemma listed_count
    (file_size : path -> option Z) (es : list directory_entry) (out : list event) :
  let r := report_groups file_size (hash_map es) (Phase2 false [] 0 out) in
  (List.length (filesToDelete r) + List.length (hash_map es))%nat =
    List.length (filter hashed es) /\
  (foundDuplicates r = true <-> filesToDelete r <> []).
Proof.
  intros r. subst r. rewrite report_groups_spec.
  cbn [filesToDelete foundDuplicates app orb]. split.
  - rewrite deletion_list_length
      by (apply build_inhabited; constructor).
    unfold hash_map. rewrite (Permutation_length (build_paths (discovered es) [])).
    cbn [flat_map app]. rewrite length_map. unfold discovered.
    induction es as [|e es IH]; [reflexivity|].
    cbn [flat_map filter]. fold (hashed e). rewrite length_app, IH.
    destruct (hashed e); reflexivity.
  - apply found_iff_listed.
Qed.

(** X6. When the iteration ends normally, of the files that the scan hashed
    one per digest is kept and every other one is put on the deletion list:
    the number of listed files and the number of digests in the map that
    the scan returns add up to the number of hashed files. And phase 2
    reports duplicates exactly when the list is not empty, so that the
    prompt never offers zero files. *)
Theorem nominated_count
    (file_size : path -> option Z) (w : walk) (out : list event) :
  thrown w = None ->
  exists m out',
    scan w [] out = (inr m, out') /\
    forall pr,
      let r := report_groups file_size m (Phase2 false [] 0 pr) in
      (List.length (filesToDelete r) + List.length m)%nat =
        List.length (filter hashed (entries w)) /\
      (foundDuplicates r = true <-> filesToDelete r <> []).
Proof.
  intros Hthrown. exists (hash_map (entries w)), (out ++ progress (entries w)).
  split; [apply scan_complete, Hthrown|].
  intros pr. apply listed_count.
Qed.

(** The scan of A, B and C: three hashed files, two digests, one file
    listed. *)
Lemma nominated_count_witness :
  thrown (complete_walk sample_entries) = None /\
  List.length (filter hashed (entries (complete_walk sample_entries))) = 3%nat /\
  exists m out',
    scan (complete_walk sample_entries) [] [] = (inr m, out') /\
    (List.length
       (filesToDelete
          (report_groups (fun _ => Some 1%Z) m (Phase2 false [] 0%Z []))) +
     List.length m)%nat = 3%nat.
Proof.
  assert (thrown (complete_walk sample_entries) = None) as Hthrown
      by reflexivity.
  assert (List.length (filter hashed (entries (complete_walk sample_entries)))
          = 3%nat) as Hthree by (vm_compute; reflexivity).
  split; [exact Hthrown|]. split; [exact Hthree|].
  destruct (nominated_count (fun _ => Some 1) (complete_walk sample_entries) []
              Hthrown) as (m & out' & Hscan & Hcount).
  exists m, out'. split; [exact Hscan|].
  rewrite <- Hthree. exact (proj1 (Hcount [])).
Defined.

(** ** The run without duplicates *)

Lemma group_length_count (k : string) (hp : list (string * path)) :
  List.length (group k hp) = count_occ string_dec (map fst hp) k.
Proof.
  induction hp as [|[k' p'] hp IH]; [reflexivity|].
  rewrite group_cons. cbn [map fst count_occ].
  destruct (string_dec k' k) as [->|Hne].
  - rewrite String.eqb_refl. cbn [List.length]. rewrite IH. reflexivity.
  - apply String.eqb_neq in Hne. rewrite Hne. exact IH.
Qed.

Lemma distinct_digests_no_group (es : list directory_entry) :
  NoDup (map fst (discovered es)) ->
  existsb is_duplicate_group (hash_map es) = false.
Proof.
  intros Hnd. destruct (existsb is_duplicate_group (hash_map es)) eqn:Hex;
    [|reflexivity].
  apply existsb_exists in Hex. destruct Hex as ([k ps] & Hin & Hdup).
  unfold is_duplicate_group in Hdup. cbn [snd] in Hdup. apply Nat.ltb_lt in Hdup.
  rewrite (hash_map_In es k ps Hin), group_length_count in Hdup.
  pose proof (proj1 (NoDup_count_occ string_dec _) Hnd k). lia.
Qed.

(** X7. When the walk ends normally and no two hashed files have the same
    digest, [findAndRemoveDuplicates] writes the progress lines, the end of
    the scan and "No duplicate files found", and returns: it asks nothing,
    whatever the input holds, and the disk is as it was. *)
Theorem no_duplicates_no_prompt (rootDir : path) (w : world) :
  thrown (tree w) = None ->
  NoDup (map fst (discovered (entries (tree w)))) ->
  findAndRemoveDuplicates rootDir w =
    ([Out ("Starting scan of directory: " +++ rootDir +++ nl);
      Out ("This may take a while for large directories..." +++ nl)] ++
     progress (entries (tree w)) ++
     [Out nl; Out ("Scan Complete. Checking for duplicates..." +++ nl);
      Out (nl +++ "No duplicate files found in the directory." +++ nl)],
     files w).
Proof.
  intros Hthrown Hnd.
  rewrite (findAndRemoveDuplicates_complete rootDir w Hthrown).
  rewrite (distinct_digests_no_group _ Hnd).
  rewrite <- !app_assoc. reflexivity.
Qed.

Lemma no_duplicates_no_prompt_witness :
  let w := World (complete_walk (skipn 1 sample_entries)) (fun _ => Some 1)
                 "y" sample_disk in
  thrown (tree w) = None /\
  NoDup (map fst (discovered (entries (tree w)))) /\
  snd (findAndRemoveDuplicates "d" w) = sample_disk.
Proof.
  intros w.
  assert (thrown (tree w) = None) as Hthrown by reflexivity.
  assert (NoDup (map fst (discovered (entries (tree w))))) as Hnd
      by (vm_compute; decide_NoDup).
  split; [exact Hthrown|]. split; [exact Hnd|].
  rewrite (no_duplicates_no_prompt "d" w Hthrown Hnd). reflexivity.
Defined.

(** ** Phase 3: what the deletions touch *)

Lemma fs_remove_incl (p : path) (d : disk) (x : path * bool) :
  In x (snd (fs_remove p d)) -> In x d.
Proof.
  induction d as [|[q removable] d IH]; cbn [fs_remove]; [auto|].
  destruct (String.eqb p q).
  - destruct removable; cbn [snd]; [right; assumption|auto].
  - destruct (fs_remove p d) as [r d']. cbn [snd] in *.
    intros [Hx|Hx]; [left; exact Hx|right; auto].
Qed.

Lemma fs_remove_keeps (p : path) (d : disk) (q : path) (b : bool) :
  q <> p \/ b = false -> In (q, b) d -> In (q, b) (snd (fs_remove p d)).
Proof.
  intros Hq. induction d as [|[q' removable] d IH]; cbn [fs_remove]; [auto|].
  destruct (String.eqb p q') eqn:Hp.
  - apply String.eqb_eq in Hp. subst q'.
    destruct removable; cbn [snd]; [|auto].
    intros [Heq|Hin]; [|exact Hin]. inversion Heq; subst.
    destruct Hq as [Hq|Hq]; [contradiction|discriminate].
  - destruct (fs_remove p d) as [r d']. cbn [snd] in *.
    intros [Hx|Hx]; [left; exact Hx|right; auto].
Qed.

Lemma deletions_incl (files : list path) :
  forall d x,
    In x (fold_left (fun d p => snd (fs_remove p d)) files d) -> In x d.
Proof.
  induction files as [|p files IH]; intros d x; cbn [fold_left]; [auto|].
  intros Hx. eapply fs_remove_incl, IH, Hx.
Qed.

Lemma deletions_keep (files : list path) (q : path) (b : bool) :
  ~ In q files \/ b = false ->
  forall d,
    In (q, b) d -> In (q, b) (fold_left (fun d p => snd (fs_remove p d)) files d).
Proof.
  intros Hq. induction files as [|p files IH]; intros d Hin; cbn [fold_left];
    [exact Hin|].
  apply IH.
  - destruct Hq as [Hq|Hq]; [left; intros H; apply Hq; right; exact H|auto].
  - apply fs_remove_keeps; [|exact Hin].
    destruct Hq as [Hq|Hq]; [left; intros ->; apply Hq; left; reflexivity|auto].
Qed.

Lemma prompt_and_delete_disk (st : phase2) (stdin : string) (d : disk) :
  snd (prompt_and_delete st stdin d) =
    if confirmed (cin_extract stdin)
    then fold_left (fun d p => snd (fs_remove p d)) (filesToDelete st) d
    else d.
Proof.
  unfold prompt_and_delete. destruct (confirmed (cin_extract stdin)); [|reflexivity].
  rewrite delete_all_spec. reflexivity.
Qed.

(** X8. Whatever is answered to the prompt, phase 3 leaves on the disk every
    file that is not on the deletion list, and every file that may not be
    removed, listed or not; and it puts nothing on the disk. *)
Theorem unlisted_files_stay (st : phase2) (stdin : string) (d : disk) :
  (forall q b,
     ~ In q (filesToDelete st) \/ b = false ->
     In (q, b) d -> In (q, b) (snd (prompt_and_delete st stdin d))) /\
  (forall x, In x (snd (prompt_and_delete st stdin d)) -> In x d).
Proof.
  rewrite prompt_and_delete_disk.
  destruct (confirmed (cin_extract stdin)); split; auto.
  - intros q b Hq. apply deletions_keep, Hq.
  - intros x. apply deletions_incl.
Qed.

Lemma unlisted_files_stay_witness :
  let st := Phase2 true ["d/B"; "d/C"] 2 [] in
  let d := [("d/A", true); ("d/B", true); ("d/C", false)] in
  In ("d/A", true) (snd (prompt_and_delete st "y" d)) /\
  In ("d/C", false) (snd (prompt_and_delete st "y" d)).
Proof.
  intros st d.
  destruct (unlisted_files_stay st "y" d) as [Hstay _]. split.
  - apply Hstay; [|left; reflexivity].
    left. cbn. intros [H|[H|[]]]; discriminate.
  - apply Hstay; [right; reflexivity|right; right; left; reflexivity].
Defined.

(** ** Phase 3: the deletions on an unchanged disk *)

Lemma filter_all {A : Type} (f : A -> bool) (l : list A) :
  (forall x, In x l -> f x = true) -> filter f l = l.
Proof.
  induction l as [|a l IH]; intros H; cbn [filter]; [reflexivity|].
  rewrite (H a (in_eq _ _)), IH; [reflexivity|].
  intros x Hx. apply H. right. exact Hx.
Qed.

Lemma fs_remove_present (p : path) (d : disk) :
  NoDup (map fst d) -> In (p, true) d ->
  fs_remove p d = (Removed, filter (fun x => negb (String.eqb (fst x) p)) d).
Proof.
  induction d as [|[q removable] d IH]; cbn [map fst]; intros Hnd Hin;
    [contradiction|].
  apply NoDup_cons_iff in Hnd. destruct Hnd as [Hq Hnd].
  cbn [fs_remove filter fst]. rewrite (String.eqb_sym q p).
  destruct (String.eqb p q) eqn:Hp.
  - apply String.eqb_eq in Hp. subst q.
    assert (removable = true) as ->.
    { destruct Hin as [Heq|Hin]; [congruence|].
      exfalso. apply Hq. change p with (fst (p, true)). apply in_map, Hin. }
    cbn [negb]. rewrite filter_all; [reflexivity|].
    intros [q r] Hx. cbn [fst]. apply negb_true_iff, String.eqb_neq.
    intros ->. apply Hq. change p with (fst (p, r)). apply in_map, Hx.
  - destruct Hin as [Heq|Hin].
    + inversion Heq; subst. rewrite String.eqb_refl in Hp. discriminate.
    + rewrite (IH Hnd Hin). reflexivity.
Qed.

Lemma NoDup_map_filter {A B : Type} (f : A -> B) (c : A -> bool) (l : list A) :
  NoDup (map f l) -> NoDup (map f (filter c l)).
Proof.
  induction l as [|a l IH]; cbn [map filter]; intros Hnd; [constructor|].
  apply NoDup_cons_iff in Hnd. destruct Hnd as [Ha Hnd].
  destruct (c a); cbn [map]; [|auto].
  constructor; [|auto]. intros Hin. apply Ha.
  apply in_map_iff in Hin. destruct Hin as (x & <- & Hx).
  apply filter_In in Hx. apply in_map. tauto.
Qed.

Lemma filter_listed (p : path) (files : list path) (d : disk) :
  filter (fun x => negb (listed files (fst x)))
         (filter (fun x => negb (String.eqb (fst x) p)) d) =
  filter (fun x => negb (listed (p :: files) (fst x))) d.
Proof.
  unfold disk, path in *.
  induction d as [|x d IH]; [reflexivity|].
  cbn [filter].
  change (listed (p :: files) (fst x))
    with (String.eqb (fst x) p || listed files (fst x)).
  destruct (String.eqb (fst x) p); cbn [negb orb]; [exact IH|].
  cbn [filter]. destruct (listed files (fst x)); cbn [negb]; rewrite IH;
    reflexivity.
Qed.

(** X9. When every listed file is on the disk and may be removed, no path
    being listed twice nor twice on the disk, the deletion loop removes
    exactly the listed files, writes "[OK] Deleted" for each in the order
    of the list and nothing on the error stream, and its tally is the
    number of files that left the disk. *)
Theorem deletions_on_unchanged_disk (files : list path) :
  forall (out : list event) (d : disk),
    NoDup files -> NoDup (map fst d) ->
    (forall p, In p files -> In (p, true) d) ->
    delete_all files 0 out d =
      (Z.of_nat (List.length files),
       out ++ map (fun p => Out ("   [OK] Deleted: " +++ p +++ nl)) files,
       filter (fun x => negb (listed files (fst x))) d) /\
    (List.length
       (filter (fun x => negb (listed files (fst x))) d) +
     List.length files)%nat = List.length d.
Proof.
  assert (forall (c : Z) (out : list event) (d : disk),
            NoDup files -> NoDup (map fst d) ->
            (forall p, In p files -> In (p, true) d) ->
            delete_all files c out d =
              (c + Z.of_nat (List.length files),
               out ++ map (fun p => Out ("   [OK] Deleted: " +++ p +++ nl)) files,
               filter (fun x => negb (listed files (fst x))) d) /\
            (List.length
               (filter (fun x => negb (listed files (fst x))) d) +
             List.length files)%nat = List.length d) as Hgen.
  { induction files as [|p files IH]; intros c out d Hfiles Hd Hin.
    - cbn [delete_all List.length map listed existsb negb].
      rewrite app_nil_r, Z.add_0_r, filter_all by reflexivity.
      split; [reflexivity|lia].
    - apply NoDup_cons_iff in Hfiles. destruct Hfiles as [Hp Hfiles].
      cbn [delete_all].
      rewrite (fs_remove_present p d Hd (Hin p (in_eq _ _))).
      set (d1 := filter (fun x => negb (String.eqb (fst x) p)) d).
      assert (forall q, In q files -> In (q, true) d1) as Hin1.
      { intros q Hq. apply filter_In. split; [apply Hin; right; exact Hq|].
        cbn [fst]. apply negb_true_iff, String.eqb_neq. intros ->. exact (Hp Hq). }
      destruct (IH (c + 1) (out ++ [Out ("   [OK] Deleted: " +++ p +++ nl)]) d1
                  Hfiles (NoDup_map_filter _ _ _ Hd) Hin1) as [Hrun Hlen].
      assert (filter (fun x => negb (listed files (fst x))) d1 =
              filter (fun x => negb (listed (p :: files) (fst x))) d) as Hfilter.
      { subst d1. apply filter_listed. }
      split.
      + rewrite Hrun, Hfilter, <- app_assoc. cbn [map app List.length].
        f_equal. f_equal. lia.
      + rewrite <- Hfilter. cbn [List.length].
        pose proof (fs_remove_disk p d) as Hdisk.
        rewrite (fs_remove_present p d Hd (Hin p (in_eq _ _))) in Hdisk.
        cbn [fst snd] in Hdisk. fold d1 in Hdisk. lia. }
  intros out d. apply (Hgen 0).
Qed.

Lemma deletions_on_unchanged_disk_witness :
  NoDup ["d/B"; "d/D"] /\
  NoDup (map fst [("d/A", true); ("d/B", true); ("d/D", true)]) /\
  delete_all ["d/B"; "d/D"] 0 [] [("d/A", true); ("d/B", true); ("d/D", true)] =
    (2, [Out ("   [OK] Deleted: d/B" +++ nl); Out ("   [OK] Deleted: d/D" +++ nl)],
     [("d/A", true)]).
Proof.
  assert (NoDup ["d/B"; "d/D"]) as Hfiles by decide_NoDup.
  assert (NoDup (map fst [("d/A", true); ("d/B", true); ("d/D", true)])) as Hd
      by (cbn; decide_NoDup).
  split; [exact Hfiles|]. split; [exact Hd|].
  rewrite (proj1 (deletions_on_unchanged_disk ["d/B"; "d/D"] []
                    [("d/A", true); ("d/B", true); ("d/D", true)] Hfiles Hd
                    ltac:(intros p [<-|[<-|[]]]; cbn; auto))).
  reflexivity.
Defined.

(** ** Phase 3: the lines and the tally *)

Lemma deletion_lines_count (files : list path) :
  forall rs : list removal,
    List.length rs = List.length files ->
    let lines := map (fun x => deletion_line (fst x) (snd x)) (combine files rs) in
    List.length lines = List.length files /\
    List.length (filter is_out lines) =
      List.length (filter (fun r => negb (is_error r)) rs) /\
    (List.length (filter is_out lines) + List.length (filter is_err lines))%nat =
      List.length files /\
    (List.length (filter is_removed rs) <=
     List.length (filter (fun r => negb (is_error r)) rs))%nat.
Proof.
  induction files as [|p files IH]; intros [|r rs] Hlen; try discriminate.
  - cbn. auto.
  - cbn [List.length] in Hlen. injection Hlen as Hlen.
    destruct (IH rs Hlen) as (H1 & H2 & H3 & H4).
    cbn [combine map filter fst snd List.length].
    destruct r; cbn [deletion_line is_out is_err is_error is_removed negb List.length];
      repeat split; lia.
Qed.

(** X10. The deletion loop writes one line for each listed file, "[OK]" on
    the output or "[FAIL]" on the error stream, whatever happened to the
    files before it; its tally is the number of "[OK]" lines, so that the
    tally and the number of failures add up to the number of listed files;
    and the tally is never less than the number of files that left the
    disk. *)
Theorem deletion_accounting (files : list path) (d : disk) :
  let '(deleteCount, out, d') := delete_all files 0 [] d in
  List.length out = List.length files /\
  deleteCount = Z.of_nat (List.length (filter is_out out)) /\
  deleteCount + Z.of_nat (List.length (filter is_err out)) =
    Z.of_nat (List.length files) /\
  Z.of_nat (List.length d) - Z.of_nat (List.length d') <= deleteCount.
Proof.
  rewrite delete_all_spec. cbn [app Z.add].
  destruct (deletion_lines_count files (removals files d) (removals_length files d))
    as (H1 & H2 & H3 & H4).
  pose proof (removed_count files d) as Hdisk.
  repeat split; lia.
Qed.

(** ** Phase 3: the inputs that confirm *)

Lemma until_whitespace_nil (s : string) :
  until_whitespace s = "" -> delimits s = true.
Proof. destruct s as [|c s]; cbn; [reflexivity|]. destruct (isspace c); [reflexivity|discriminate]. Qed.

Lemma confirmed_affirmative (stdin : string) :
  confirmed (cin_extract stdin) = true <-> affirmative stdin.
Proof.
  split.
  - unfold cin_extract. induction stdin as [|a s IH]; [discriminate|].
    cbn [skip_whitespace]. destruct (isspace a) eqn:Ha.
    + intros H. destruct (IH H) as (pre & c & post & -> & Hpre & Hc & Hpost).
      exists (String a pre), c, post. cbn [String.append all_space].
      rewrite Ha. auto.
    + cbn [until_whitespace]. rewrite Ha. intros H. apply confirmed_iff in H.
      exists "", a, s. cbn [String.append all_space].
      assert (until_whitespace s = "") as Hs by (destruct H as [H|H]; congruence).
      repeat split; [|apply until_whitespace_nil, Hs].
      destruct H as [H|H]; inversion H; auto.
  - intros (pre & c & post & -> & Hpre & Hc & Hpost).
    change (String c post) with (String c "" +++ post).
    rewrite cin_extract_token; try assumption.
    + destruct Hc as [-> | ->]; reflexivity.
    + destruct Hc as [-> | ->]; reflexivity.
    + discriminate.
Qed.

(** X11. The deletions run exactly on the inputs that begin, after any white
    space, new lines included, with a "Y" or "y" that is followed by white
    space or by the end of the input; what comes after is not looked at. On
    every other input, the empty one included, nothing is removed. *)
Theorem affirmative_inputs (st : phase2) (stdin : string) (d : disk) :
  (affirmative stdin ->
   snd (prompt_and_delete st stdin d) =
     fold_left (fun d p => snd (fs_remove p d)) (filesToDelete st) d /\
   In (Out (nl +++ "Starting batch deletion..." +++ nl))
      (fst (prompt_and_delete st stdin d))) /\
  (~ affirmative stdin ->
   prompt_and_delete st stdin d = (summary st ++ [skipped_message st], d)).
Proof.
  split.
  - intros Hyes. apply confirmed_affirmative in Hyes.
    rewrite prompt_and_delete_yes by exact Hyes. rewrite delete_all_spec.
    cbn [fst snd]. split; [reflexivity|].
    apply in_or_app. left. apply in_or_app. left. apply in_or_app. right.
    left. reflexivity.
  - intros Hno. apply prompt_and_delete_no.
    destruct (confirmed (cin_extract stdin)) eqn:Hc; [|reflexivity].
    apply confirmed_affirmative in Hc. contradiction.
Qed.

Lemma affirmative_inputs_witness :
  let st := Phase2 true ["d/B"] 1 [] in
  affirmative (nl +++ "  y" +++ nl +++ "no") /\
  snd (prompt_and_delete st (nl +++ "  y" +++ nl +++ "no") sample_disk) =
    [("d/A", true); ("d/C", true)] /\
  ~ affirmative "yn" /\
  snd (prompt_and_delete st "yn" sample_disk) = sample_disk.
Proof.
  intros st.
  assert (affirmative (nl +++ "  y" +++ nl +++ "no")) as Hyes.
  { exists (nl +++ "  "), "y"%char, (nl +++ "no").
    split; [reflexivity|]. split; [reflexivity|]. split; [right|]; reflexivity. }
  assert (~ affirmative "yn") as Hno.
  { intros (pre & c & post & Heq & Hpre & Hc & Hpost).
    destruct pre as [|a pre]; cbn [String.append] in Heq.
    - inversion Heq; subst. discriminate.
    - inversion Heq; subst. discriminate. }
  split; [exact Hyes|]. split; [|split; [exact Hno|]].
  - rewrite (proj1 (proj1 (affirmative_inputs st _ sample_disk) Hyes)).
    reflexivity.
  - rewrite (proj2 (affirmative_inputs st "yn" sample_disk) Hno). reflexivity.
Defined.

(** ** formatSize: the width of the number, and the sizes it cannot show *)

Lemma formatSize_unfold (bytes : Z) :
  1024 <= bytes ->
  formatSize bytes =
    substring 0 4
      (to_string_double (fdiv (to_double bytes) (fst (unit_of bytes))))
    +++ " " +++ snd (unit_of bytes).
Proof.
  intros Hb. unfold formatSize, unit_of.
  change GB with (1024 ^ 3). change MB with (1024 ^ 2). change KB with 1024.
  destruct (bytes <? 1024 ^ 2) eqn:H2.
  - apply Z.ltb_lt in H2.
    rewrite (proj2 (Z.leb_gt (1024 ^ 3) bytes)) by lia.
    rewrite (proj2 (Z.leb_gt (1024 ^ 2) bytes)) by lia.
    rewrite (proj2 (Z.leb_le 1024 bytes)) by lia. reflexivity.
  - apply Z.ltb_ge in H2. destruct (bytes <? 1024 ^ 3) eqn:H3.
    + apply Z.ltb_lt in H3.
      rewrite (proj2 (Z.leb_gt (1024 ^ 3) bytes)) by lia.
      rewrite (proj2 (Z.leb_le (1024 ^ 2) bytes)) by lia. reflexivity.
    + apply Z.ltb_ge in H3.
      rewrite (proj2 (Z.leb_le (1024 ^ 3) bytes)) by lia. reflexivity.
Qed.

(** The digits of a number are those of its tenth and its last digit. *)
Lemma to_string_step (n : Z) :
  10 <= n ->
  to_string n = to_string (n / 10) +++ String (digit (n mod 10)) "".
Proof.
  intros Hn. unfold to_string at 1. cbn [digits].
  rewrite (proj2 (Z.ltb_ge n 10)) by lia. rewrite digits_app. f_equal.
  symmetry. apply to_string_fuel.
  - assert (1 <= Z.log2 n) by (apply Z.log2_le_pow2; lia). lia.
  - split; [apply Z.div_pos; lia|].
    apply Z.div_lt_upper_bound; [lia|].
    rewrite Z2Nat.id by apply Z.log2_nonneg.
    pose proof (Z.log2_spec n ltac:(lia)) as Hlog.
    rewrite Z.pow_succ_r in Hlog by apply Z.log2_nonneg. lia.
Qed.

Lemma to_string_length_1 (n : Z) : 0 <= n -> (1 <= String.length (to_string n))%nat.
Proof.
  intros Hn. destruct (Z.lt_ge_cases n 10) as [H|H].
  - rewrite to_string_1 by lia. cbn. lia.
  - rewrite to_string_step, length_append by lia. cbn [String.length]. lia.
Qed.

Lemma to_string_length_4 (n : Z) :
  1000 <= n -> (4 <= String.length (to_string n))%nat.
Proof.
  intros Hn.
  rewrite (to_string_step n), length_append by lia.
  rewrite (to_string_step (n / 10)), length_append
    by (Z.to_euclidean_division_equations; lia).
  rewrite (to_string_step (n / 10 / 10)), length_append
    by (Z.to_euclidean_division_equations; lia).
  pose proof (to_string_length_1 (n / 10 / 10 / 10)
                ltac:(Z.to_euclidean_division_equations; lia)).
  cbn [String.length]. lia.
Qed.

Lemma substring_0_0 (s : string) : substring 0 0 s = "".
Proof. destruct s; reflexivity. Qed.

Lemma substring_4_cons (a b c e : ascii) (s : string) :
  substring 0 4 (String a (String b (String c (String e s)))) =
    String a (String b (String c (String e ""))).
Proof. cbn [substring]. rewrite substring_0_0. reflexivity. Qed.

Lemma substring_4_length (s : string) :
  (4 <= String.length s)%nat -> String.length (substring 0 4 s) = 4%nat.
Proof.
  destruct s as [|a [|b [|c [|e s]]]]; cbn [String.length]; try lia.
  intros _. rewrite substring_4_cons. reflexivity.
Qed.

Lemma substring_4_append (s t : string) :
  (4 <= String.length s)%nat -> substring 0 4 (s +++ t) = substring 0 4 s.
Proof.
  destruct s as [|a [|b [|c [|e s]]]]; cbn [String.length]; try lia.
  intros _. cbn [String.append]. rewrite !substring_4_cons. reflexivity.
Qed.

Lemma is_digit_range (c : ascii) :
  is_digit c = true -> 0 <= Z.of_nat (nat_of_ascii c) - 48 <= 9.
Proof.
  unfold is_digit. intros H. apply andb_true_iff in H. destruct H as [Hlo Hhi].
  apply Nat.leb_le in Hlo. apply Nat.leb_le in Hhi. lia.
Qed.

Lemma substring_4_digits (s : string) :
  (4 <= String.length s)%nat -> all_digits s = true ->
  all_digits (substring 0 4 s) = true /\ 0 <= decimal_value (substring 0 4 s) < 10000.
Proof.
  destruct s as [|a [|b [|c [|e s]]]]; cbn [String.length]; try lia.
  intros _. cbn [all_digits]. intros H.
  repeat (apply andb_true_iff in H; destruct H as [? H]).
  assert (substring 0 4 (String a (String b (String c (String e s)))) =
          String a (String b (String c (String e "")))) as ->
      by apply substring_4_cons.
  cbn [all_digits]. split.
  - repeat (apply andb_true_iff; split; try assumption). reflexivity.
  - unfold decimal_value. cbn [decimal_from].
    repeat match goal with
           | Hd : is_digit _ = true |- _ => apply is_digit_range in Hd
           end.
    lia.
Qed.

Lemma to_double_large (bytes : Z) :
  10000 * 1024 ^ 3 <= bytes ->
  10000 * 1024 ^ 3 <= mant (to_double bytes).
Proof.
  intros Hb. unfold to_double. destruct (bytes <? 2 ^ 53) eqn:H53; [exact Hb|].
  apply Z.ltb_ge in H53. cbn [mant].
  assert (53 <= Z.log2 bytes) as Hlog by (apply Z.log2_le_pow2; lia).
  pose proof (Z.log2_spec bytes ltac:(lia)) as [Hlow _].
  set (e := Z.log2 bytes - 52) in *.
  replace (Z.log2 bytes) with (52 + e) in Hlow by (subst e; lia).
  rewrite Z.pow_add_r in Hlow by lia.
  pose proof (Z.pow_pos_nonneg 2 e ltac:(lia) ltac:(lia)) as Hpos.
  assert (2 ^ 52 <= bytes / 2 ^ e) as Hq
      by (apply Z.div_le_lower_bound; lia).
  change (2 ^ 52) with 4503599627370496 in *.
  change (1024 ^ 3) with 1073741824 in *.
  destruct (2 * (bytes mod 2 ^ e) <? 2 ^ e);
    [|destruct (2 ^ e <? 2 * (bytes mod 2 ^ e));
      [|destruct (Z.odd (bytes / 2 ^ e))]]; nia.
Qed.

Lemma millionths_lower (x : double) :
  0 <= scale x -> mant x * 10 ^ 6 / 2 ^ scale x <= millionths x.
Proof.
  intros Hs. unfold millionths.
  destruct (2 * (mant x * 10 ^ 6 mod 2 ^ scale x) <? 2 ^ scale x);
    [|destruct (2 ^ scale x <? 2 * (mant x * 10 ^ 6 mod 2 ^ scale x));
      [|destruct (Z.odd (mant x * 10 ^ 6 / 2 ^ scale x))]]; lia.
Qed.

Lemma to_string_double_length (x : double) :
  0 <= mant x -> 0 <= scale x ->
  (8 <= String.length (to_string_double x))%nat.
Proof.
  intros Hm Hs. unfold to_string_double.
  destruct (millionths_nearest x Hm Hs) as [Hq _].
  rewrite !length_append.
  pose proof (to_string_length_1 (millionths x / 10 ^ 6)
                ltac:(apply Z.div_pos; lia)) as H1.
  change (String.length (frac6 (millionths x))) with 6%nat.
  cbn [String.length]. lia.
Qed.

(** X12. From 1024 bytes on, the number that [formatSize] shows has exactly
    four characters, in front of a space and the unit. From 10000 GB on,
    these four characters are all digits, so that the number shown is below
    10000 while the size is 10000 GB or more: sizes from about 9.77 TB on
    are shown too small. *)
Theorem formatSize_width (bytes : Z) :
  1024 <= bytes < 2 ^ 64 ->
  exists num,
    formatSize bytes = num +++ " " +++ snd (unit_of bytes) /\
    String.length num = 4%nat /\
    (10000 * 1024 ^ 3 <= bytes ->
     all_digits num = true /\
     decimal_value num < 10000 <= bytes / 1024 ^ 3).
Proof.
  intros Hb.
  exists (substring 0 4
            (to_string_double (fdiv (to_double bytes) (fst (unit_of bytes))))).
  destruct (to_double_nonneg bytes ltac:(lia)) as [Hmant Hscale].
  assert (0 <= Z.log2 (fst (unit_of bytes))) as Hlog by apply Z.log2_nonneg.
  split; [apply formatSize_unfold; lia|]. split.
  - apply substring_4_length.
    apply (Nat.le_trans _ 8); [lia|]. apply to_string_double_length.
    + exact Hmant.
    + unfold fdiv. cbn [scale]. lia.
  - intros Hbig.
    assert (unit_of bytes = (1024 ^ 3, "GB")) as ->.
    { unfold unit_of.
      rewrite (proj2 (Z.ltb_ge bytes (1024 ^ 2))) by lia.
      rewrite (proj2 (Z.ltb_ge bytes (1024 ^ 3))) by lia. reflexivity. }
    cbn [fst]. unfold to_string_double.
    set (q := millionths (fdiv (to_double bytes) (1024 ^ 3))).
    assert (10 ^ 10 <= q) as Hq.
    { subst q. etransitivity; [|apply millionths_lower].
      - unfold fdiv. cbn [mant scale]. rewrite Hscale.
        change (0 + Z.log2 (1024 ^ 3)) with 30.
        apply Z.div_le_lower_bound; [lia|].
        pose proof (to_double_large bytes Hbig).
        change (1024 ^ 3) with (2 ^ 30) in *. lia.
      - unfold fdiv. cbn [scale]. rewrite Hscale. discriminate. }
    assert (1000 <= q / 10 ^ 6) as Hip
        by (apply Z.div_le_lower_bound; lia).
    rewrite substring_4_append by (apply to_string_length_4, Hip).
    assert (0 <= q / 10 ^ 6) as Hip0 by lia.
    destruct (substring_4_digits (to_string (q / 10 ^ 6))
                (to_string_length_4 _ Hip)
                (proj2 (to_string_value _ Hip0))) as [Hd Hv].
    split; [exact Hd|]. split; [lia|].
    apply Z.div_le_lower_bound; lia.
Qed.

Lemma formatSize_width_witness :
  1024 <= 10 * 1024 ^ 4 < 2 ^ 64 /\
  10000 * 1024 ^ 3 <= 10 * 1024 ^ 4 /\
  formatSize (10 * 1024 ^ 4) = "1024 GB" /\
  exists num,
    formatSize (10 * 1024 ^ 4) = num +++ " GB" /\
    decimal_value num < 10000 <= 10 * 1024 ^ 4 / 1024 ^ 3.
Proof.
  assert (1024 <= 10 * 1024 ^ 4 < 2 ^ 64) as Hb by lia.
  assert (10000 * 1024 ^ 3 <= 10 * 1024 ^ 4) as Hbig by lia.
  destruct (formatSize_width (10 * 1024 ^ 4) Hb) as (num & Hfmt & _ & Hlost).
  split; [exact Hb|]. split; [exact Hbig|]. split; [vm_compute; reflexivity|].
  exists num. split; [exact Hfmt|]. exact (proj2 (Hlost Hbig)).
Defined.
